(** * generate-font: a shallow embedding of [generate-font.mjs]

    The script turns a directory of SVG icons into one WOFF2 icon font and a
    stylesheet.  This development embeds the script's own functions
    ([readSVGFiles], [getSVGFilesHash], [sanitizeGlyphName], [saveFile],
    [generateFont] and the main function) together with the parts of the
    JavaScript and Node.js runtime they call, and checks the properties the
    specification states about them.

    JavaScript strings are sequences of UTF-16 code units: a string is a
    [list Z] whose elements are code units.  Buffers are [list Z] of bytes.
    The file system is a finite map from paths to nodes. *)

From stdpp Require Import base numbers option list strings gmap.
From Stdlib Require Import ZArith Lia.

Local Open Scope Z_scope.

(** ** JavaScript strings *)

Abbreviation jsstr := (list Z).

(** An ASCII literal of the script as a list of code units. *)
Fixpoint lit (s : string) : jsstr :=
  match s with
  | EmptyString => []
  | String a s' => Z.of_N (Ascii.N_of_ascii a) :: lit s'
  end.

(** The double quote, U+0022. *)
Definition dquote : jsstr := [34].

(** [arr.join(sep)] *)
Fixpoint join (sep : jsstr) (arr : list jsstr) : jsstr :=
  match arr with
  | [] => []
  | [x] => x
  | x :: rest => x ++ sep ++ join sep rest
  end.

(** [s.endsWith(suffix)] *)
Definition endsWith (s suffix : jsstr) : bool :=
  bool_decide (drop (length s - length suffix)%nat s = suffix).

(** [s.slice(start, stop)] for [0 <= start], [0 <= stop]. *)
Definition slice (s : jsstr) (start stop : Z) : jsstr :=
  take (Z.to_nat stop - Z.to_nat start)%nat (drop (Z.to_nat start) s).

(** [String.fromCharCode(n)]: the argument goes through ToUint16. *)
Definition fromCharCode (n : Z) : jsstr := [n mod 65536].

(** [s.charCodeAt(i)]; [None] stands for NaN (index out of range). *)
Definition charCodeAt (s : jsstr) (i : nat) : option Z := s !! i.

(** *** Number.prototype.toString *)

Definition digitChar (d : Z) : Z := if d <? 10 then 48 + d else 87 + d.

Fixpoint digitsLoop (radix : Z) (fuel : nat) (n : Z) (acc : jsstr) : jsstr :=
  match fuel with
  | O => acc
  | S fuel' =>
      let acc' := digitChar (n mod radix) :: acc in
      if n / radix =? 0 then acc' else digitsLoop radix fuel' (n / radix) acc'
  end.

(** [n.toString(radix)] for a non-negative integer [n] below 2^53 (array
    lengths, file sizes and char codes are such numbers); lower-case digits,
    no padding. *)
Definition toStringRadix (radix n : Z) : jsstr :=
  digitsLoop radix (S (Z.to_nat (Z.log2 n))) n [].

Definition toString10 (n : Z) : jsstr := toStringRadix 10 n.
Definition toString16 (n : Z) : jsstr := toStringRadix 16 n.

(** The number a string of hexadecimal digits denotes. *)
Definition hexDigitValue (c : Z) : Z := if c <? 58 then c - 48 else c - 87.
Definition hexValue (s : jsstr) : Z := foldl (fun acc c => 16 * acc + hexDigitValue c) 0 s.
Definition isHexDigit (c : Z) : bool :=
  ((48 <=? c) && (c <=? 57)) || ((97 <=? c) && (c <=? 102)).

(** [s.startsWith(p)] *)
Fixpoint startsWith (s p : jsstr) {struct p} : bool :=
  match p, s with
  | [], _ => true
  | a :: p', b :: s' => (a =? b) && startsWith s' p'
  | _ :: _, [] => false
  end.

(** The number of positions of [s] at which [pat] occurs. *)
Fixpoint countOccurrences (pat s : jsstr) : nat :=
  match s with
  | [] => 0%nat
  | _ :: s' => ((if startsWith s pat then 1 else 0) + countOccurrences pat s')%nat
  end.

(** [s.split(sep)] for a one-character separator; [cur] holds the piece
    being read, last character first. *)
Fixpoint splitChar (sep : Z) (cur : jsstr) (s : jsstr) : list jsstr :=
  match s with
  | [] => [reverse cur]
  | c :: s' => if c =? sep then reverse cur :: splitChar sep [] s'
               else splitChar sep (c :: cur) s'
  end.

(** Neither a line feed nor an at sign. *)
Definition plainChar (c : Z) : bool := negb (c =? 10) && negb (c =? 64).

(** *** [String.prototype.replace] with a global one-character class *)

(** [s.replace(/[cls]/g, rep)]: without the [u] flag the class is matched
    against every code unit in turn, and each match is replaced by [rep]. *)
Fixpoint replaceClass (cls : Z -> bool) (rep : jsstr) (s : jsstr) : jsstr :=
  match s with
  | [] => []
  | c :: s' => (if cls c then rep else [c]) ++ replaceClass cls rep s'
  end.

(** ** The Glyph Namer *)

(** The character class [a-zA-Z0-9]. *)
Definition isAlnum (c : Z) : bool :=
  ((97 <=? c) && (c <=? 122)) || ((65 <=? c) && (c <=? 90)) || ((48 <=? c) && (c <=? 57)).

(** [sanitizeGlyphName]: [name.replace(/[^a-zA-Z0-9]/g, '-')]. *)
Definition sanitizeGlyphName (name : jsstr) : jsstr :=
  replaceClass (fun c => negb (isAlnum c)) (lit "-") name.

(** The characters a sanitized name may contain: [A-Za-z0-9-]. *)
Definition isNameChar (c : Z) : bool := isAlnum c || (c =? 45).

(** ** Node's [path] module (POSIX flavour) *)

Definition isSlash (c : Z) : bool := c =? 47.

(** The segments of a path between its slashes. *)
Definition splitSlash (s : jsstr) : list jsstr := splitChar 47 [] s.

(** [normalizeString]: empty and ["."] segments are dropped, [".."] removes
    the segment before it, or stays when there is none to remove and the
    path is relative.  The stack holds the kept segments, last one first. *)
Fixpoint normalizeSegments (allowAboveRoot : bool) (stack : list jsstr)
    (segs : list jsstr) : list jsstr :=
  match segs with
  | [] => reverse stack
  | seg :: segs' =>
      if bool_decide (seg = []) || bool_decide (seg = lit ".") then
        normalizeSegments allowAboveRoot stack segs'
      else if bool_decide (seg = lit "..") then
        match stack with
        | top :: stack' =>
            if bool_decide (top = lit "..")
            then normalizeSegments allowAboveRoot (seg :: stack) segs'
            else normalizeSegments allowAboveRoot stack' segs'
        | [] =>
            if allowAboveRoot
            then normalizeSegments allowAboveRoot [seg] segs'
            else normalizeSegments allowAboveRoot [] segs'
        end
      else normalizeSegments allowAboveRoot (seg :: stack) segs'
  end.

(** [path.normalize(p)] *)
Definition normalize (p : jsstr) : jsstr :=
  match p with
  | [] => lit "."
  | c :: _ =>
      let isAbsolute := isSlash c in
      let trailingSeparator := match last p with Some d => isSlash d | None => false end in
      let res := join (lit "/") (normalizeSegments (negb isAbsolute) [] (splitSlash p)) in
      match res with
      | [] => if isAbsolute then lit "/"
              else if trailingSeparator then lit "./" else lit "."
      | _ =>
          let res' := if trailingSeparator then res ++ lit "/" else res in
          if isAbsolute then lit "/" ++ res' else res'
      end
  end.

(** [path.join(...args)]: the non-empty arguments are glued with ['/'] and
    the result is normalized. *)
Definition path_join (args : list jsstr) : jsstr :=
  match filter (fun a => a ≠ []) args with
  | [] => lit "."
  | parts => normalize (join (lit "/") parts)
  end.

(** A name that [normalizeSegments] keeps as a segment: not empty, not
    ["."], not [".."]. *)
Definition plainSegment (seg : jsstr) : Prop :=
  seg ≠ [] ∧ seg ≠ lit "." ∧ seg ≠ lit "..".

(** The part of a path before its last segment: empty, or ending in a
    slash. *)
Definition dirPart (pre : jsstr) : Prop :=
  match last pre with None => True | Some c => isSlash c = true end.

(** The loop variables of [path.basename]. *)
Record BasenameState := mkBasenameState {
  bs_start : Z;
  bs_end : Z;
  bs_matchedSlash : bool;
  bs_extIdx : Z;
  bs_firstNonSlashEnd : Z
}.

(** The backwards loop of [path.basename(path, suffix)]: [rpath] holds
    [path[i]], [path[i-1]], ..., [path[0]].  The loop stops at the first
    slash found after a non-slash character. *)
Fixpoint basenameSuffixLoop (suffix : jsstr) (rpath : jsstr) (i : Z)
    (st : BasenameState) : BasenameState :=
  match rpath with
  | [] => st
  | code :: rest =>
      if isSlash code then
        if negb (bs_matchedSlash st) then
          mkBasenameState (i + 1) (bs_end st) (bs_matchedSlash st)
            (bs_extIdx st) (bs_firstNonSlashEnd st)
        else basenameSuffixLoop suffix rest (i - 1) st
      else
        let st1 :=
          if bs_firstNonSlashEnd st =? -1
          then mkBasenameState (bs_start st) (bs_end st) false (bs_extIdx st) (i + 1)
          else st in
        let st2 :=
          if 0 <=? bs_extIdx st1 then
            if bool_decide (charCodeAt suffix (Z.to_nat (bs_extIdx st1)) = Some code) then
              let extIdx' := bs_extIdx st1 - 1 in
              mkBasenameState (bs_start st1)
                (if extIdx' =? -1 then i else bs_end st1)
                (bs_matchedSlash st1) extIdx' (bs_firstNonSlashEnd st1)
            else
              mkBasenameState (bs_start st1) (bs_firstNonSlashEnd st1)
                (bs_matchedSlash st1) (-1) (bs_firstNonSlashEnd st1)
          else st1 in
        basenameSuffixLoop suffix rest (i - 1) st2
  end.

(** The loop of [path.basename(path)] when no suffix applies; the state is
    [(start, end, matchedSlash)]. *)
Fixpoint basenamePlainLoop (rpath : jsstr) (i : Z) (st : Z * Z * bool) : Z * Z * bool :=
  match rpath with
  | [] => st
  | code :: rest =>
      let '(start, end_, matchedSlash) := st in
      if isSlash code then
        if negb matchedSlash then (i + 1, end_, matchedSlash)
        else basenamePlainLoop rest (i - 1) st
      else if end_ =? -1 then basenamePlainLoop rest (i - 1) (start, i + 1, false)
      else basenamePlainLoop rest (i - 1) st
  end.

(** [path.basename(path, suffix)] *)
Definition basename (path suffix : jsstr) : jsstr :=
  let len := Z.of_nat (length path) in
  if bool_decide (suffix ≠ []) && (Z.of_nat (length suffix) <=? len) then
    if bool_decide (suffix = path) then []
    else
      let st := basenameSuffixLoop suffix (reverse path) (len - 1)
                  (mkBasenameState 0 (-1) true (Z.of_nat (length suffix) - 1) (-1)) in
      let end_ :=
        if bs_start st =? bs_end st then bs_firstNonSlashEnd st
        else if bs_end st =? -1 then len
        else bs_end st in
      slice path (bs_start st) end_
  else
    let '(start, end_, _) := basenamePlainLoop (reverse path) (len - 1) (0, -1, true) in
    if end_ =? -1 then [] else slice path start end_.

(** ** The Input Collector *)

(** What [readSVGFiles] does with the listing [fs.readdirSync(directory)]. *)
Definition collectSVG (directory : jsstr) (listing : list jsstr) : list jsstr :=
  map (fun file => path_join [directory; file])
      (filter (fun file => endsWith file (lit ".svg") = true) listing).

(** ** Glyph names, code points and stylesheet rules ([generateFont]) *)

(** [sanitizeGlyphName(path.basename(file, '.svg'))] *)
Definition glyphName (file : jsstr) : jsstr :=
  sanitizeGlyphName (basename file (lit ".svg")).

(** [String.fromCharCode(0xe000 + index)] *)
Definition glyphUnicode (index : nat) : jsstr :=
  fromCharCode (0xe000 + Z.of_nat index).

(** [unicode.charCodeAt(0)]: the code point the stylesheet names. *)
Definition glyphCodePoint (index : nat) : option Z :=
  charCodeAt (glyphUnicode index) 0.

(** [x.toString(16)] for the result of [charCodeAt]. *)
Definition codeToString16 (code : option Z) : jsstr :=
  match code with
  | Some c => toString16 c
  | None => lit "NaN"
  end.

(** The rule pushed on [cssContent] for [file] at [index]. *)
Definition cssRule (index : nat) (file : jsstr) : jsstr :=
  lit ".icon-" ++ glyphName file ++ lit ":before { content: " ++ dquote ++ lit "\"
    ++ codeToString16 (glyphCodePoint index) ++ dquote ++ lit "; }".

(** [cssContent] after the [forEach] over [svgFiles]. *)
Definition cssContent (svgFiles : list jsstr) : list jsstr := imap cssRule svgFiles.

(** The metadata attached to the glyph stream of [file]. *)
Record GlyphMetadata := mkGlyphMetadata {
  meta_unicode : list jsstr;
  meta_name : jsstr
}.

Definition glyphMetadata (index : nat) (file : jsstr) : GlyphMetadata :=
  mkGlyphMetadata [glyphUnicode index] (glyphName file).

Definition nl : jsstr := [10].

(** The [@font-face] rule of the [fontFace] template. *)
Definition fontFaceBlock (fontName : jsstr) : jsstr :=
  lit "@font-face { " ++ nl ++
  lit "  font-family: '" ++ fontName ++ lit "'; " ++ nl ++
  lit "  src: url('" ++ fontName ++ lit ".woff2') format('woff2'); " ++ nl ++
  lit "  font-weight: normal; " ++ nl ++
  lit "  font-style: normal; " ++ nl ++
  lit "} ".

(** The shared rule for every icon class. *)
Definition baseRule (fontName : jsstr) : jsstr :=
  lit "[class^=" ++ dquote ++ lit "icon-" ++ dquote ++ lit "], [class*="
    ++ dquote ++ lit " icon-" ++ dquote ++ lit "] { " ++ nl ++
  lit "  font-family: '" ++ fontName ++ lit "' !important; " ++ nl ++
  lit "  speak: none; " ++ nl ++
  lit "  font-style: normal; " ++ nl ++
  lit "  font-weight: normal; " ++ nl ++
  lit "  font-variant: normal; " ++ nl ++
  lit "  text-transform: none; " ++ nl ++
  lit "  line-height: 1; " ++ nl ++
  lit "  -webkit-font-smoothing: antialiased; " ++ nl ++
  lit "  -moz-osx-font-smoothing: grayscale; " ++ nl ++
  lit "}".

(** The template literal [fontFace]. *)
Definition fontFace (fontName : jsstr) : jsstr :=
  nl ++ fontFaceBlock fontName ++ nl ++ baseRule fontName.

(** [cssOutput]: the text written to the stylesheet. *)
Definition cssOutput (fontName : jsstr) (svgFiles : list jsstr) : jsstr :=
  fontFace fontName ++ nl ++ nl ++ join nl (cssContent svgFiles).

(** ** Buffers and UTF-8 *)

Abbreviation bytes := (list Z).

(** The UTF-8 bytes of one code point. *)
Definition utf8CodePoint (cp : Z) : bytes :=
  if cp <? 0x80 then [cp]
  else if cp <? 0x800 then
    [Z.lor 0xC0 (Z.shiftr cp 6); Z.lor 0x80 (Z.land cp 0x3F)]
  else if cp <? 0x10000 then
    [Z.lor 0xE0 (Z.shiftr cp 12); Z.lor 0x80 (Z.land (Z.shiftr cp 6) 0x3F);
     Z.lor 0x80 (Z.land cp 0x3F)]
  else
    [Z.lor 0xF0 (Z.shiftr cp 18); Z.lor 0x80 (Z.land (Z.shiftr cp 12) 0x3F);
     Z.lor 0x80 (Z.land (Z.shiftr cp 6) 0x3F); Z.lor 0x80 (Z.land cp 0x3F)].

Definition isHighSurrogate (c : Z) : bool := (0xD800 <=? c) && (c <=? 0xDBFF).
Definition isLowSurrogate (c : Z) : bool := (0xDC00 <=? c) && (c <=? 0xDFFF).

(** [Buffer.from(s, 'utf8')], also what [hash.update(s)] and
    [fs.writeFileSync(p, s)] do with a string: surrogate pairs become one
    code point, a lone surrogate becomes U+FFFD. *)
Fixpoint utf8Encode (s : jsstr) : bytes :=
  match s with
  | [] => []
  | c :: rest =>
      if isHighSurrogate c then
        match rest with
        | d :: rest' =>
            if isLowSurrogate d
            then utf8CodePoint (0x10000 + (c - 0xD800) * 0x400 + (d - 0xDC00)) ++ utf8Encode rest'
            else utf8CodePoint 0xFFFD ++ utf8Encode rest
        | [] => utf8CodePoint 0xFFFD
        end
      else if isLowSurrogate c then utf8CodePoint 0xFFFD ++ utf8Encode rest
      else utf8CodePoint c ++ utf8Encode rest
  end.

(** ** MD5 (RFC 1321), as [crypto.createHash('md5')] computes it *)

Module MD5.

Definition mask32 (x : Z) : Z := x mod 2 ^ 32.

Definition rotl32 (x c : Z) : Z :=
  mask32 (Z.lor (Z.shiftl x c) (Z.shiftr x (32 - c))).

Definition not32 (x : Z) : Z := Z.lxor x 0xFFFFFFFF.

(** Per-round shift amounts. *)
Definition S : list Z :=
  [7; 12; 17; 22; 7; 12; 17; 22; 7; 12; 17; 22; 7; 12; 17; 22;
   5; 9; 14; 20; 5; 9; 14; 20; 5; 9; 14; 20; 5; 9; 14; 20;
   4; 11; 16; 23; 4; 11; 16; 23; 4; 11; 16; 23; 4; 11; 16; 23;
   6; 10; 15; 21; 6; 10; 15; 21; 6; 10; 15; 21; 6; 10; 15; 21].

(** [K[i] = floor(2^32 * abs(sin(i + 1)))]. *)
Definition K : list Z :=
  [0xd76aa478; 0xe8c7b756; 0x242070db; 0xc1bdceee;
   0xf57c0faf; 0x4787c62a; 0xa8304613; 0xfd469501;
   0x698098d8; 0x8b44f7af; 0xffff5bb1; 0x895cd7be;
   0x6b901122; 0xfd987193; 0xa679438e; 0x49b40821;
   0xf61e2562; 0xc040b340; 0x265e5a51; 0xe9b6c7aa;
   0xd62f105d; 0x02441453; 0xd8a1e681; 0xe7d3fbc8;
   0x21e1cde6; 0xc33707d6; 0xf4d50d87; 0x455a14ed;
   0xa9e3e905; 0xfcefa3f8; 0x676f02d9; 0x8d2a4c8a;
   0xfffa3942; 0x8771f681; 0x6d9d6122; 0xfde5380c;
   0xa4beea44; 0x4bdecfa9; 0xf6bb4b60; 0xbebfbc70;
   0x289b7ec6; 0xeaa127fa; 0xd4ef3085; 0x04881d05;
   0xd9d4d039; 0xe6db99e5; 0x1fa27cf8; 0xc4ac5665;
   0xf4292244; 0x432aff97; 0xab9423a7; 0xfc93a039;
   0x655b59c3; 0x8f0ccc92; 0xffeff47d; 0x85845dd1;
   0x6fa87e4f; 0xfe2ce6e0; 0xa3014314; 0x4e0811a1;
   0xf7537e82; 0xbd3af235; 0x2ad7d2bb; 0xeb86d391].

(** The chaining value [(A, B, C, D)]. *)
Definition state : Type := Z * Z * Z * Z.

Definition init : state := (0x67452301, 0xefcdab89, 0x98badcfe, 0x10325476).

(** Little-endian bytes of a number, [n] of them. *)
Fixpoint leBytes (n : nat) (x : Z) : bytes :=
  match n with
  | O => []
  | Datatypes.S n' => x mod 256 :: leBytes n' (x / 256)
  end.

Fixpoint leWord (bs : bytes) : Z :=
  match bs with
  | [] => 0
  | b :: bs' => b + 256 * leWord bs'
  end.

(** The sixteen 32-bit words of a 64-byte block. *)
Fixpoint blockWords (n : nat) (block : bytes) : list Z :=
  match n with
  | O => []
  | Datatypes.S n' => leWord (take 4 block) :: blockWords n' (drop 4 block)
  end.

(** One of the 64 operations on a block with words [M]. *)
Definition step (M : list Z) (st : state) (i : nat) : state :=
  let '(A, B, C, D) := st in
  let iz := Z.of_nat i in
  let '(F, g) :=
    if iz <? 16 then (Z.lor (Z.land B C) (Z.land (not32 B) D), iz)
    else if iz <? 32 then (Z.lor (Z.land D B) (Z.land (not32 D) C), (5 * iz + 1) mod 16)
    else if iz <? 48 then (Z.lxor (Z.lxor B C) D, (3 * iz + 5) mod 16)
    else (Z.lxor C (Z.lor B (not32 D)), (7 * iz) mod 16) in
  let F' := mask32 (F + A + nth i K 0 + nth (Z.to_nat g) M 0) in
  (D, mask32 (B + rotl32 F' (nth i S 0)), B, C).

Definition compress (st : state) (block : bytes) : state :=
  let '(a0, b0, c0, d0) := st in
  let '(A, B, C, D) := foldl (step (blockWords 16 block)) st (seq 0 64) in
  (mask32 (a0 + A), mask32 (b0 + B), mask32 (c0 + C), mask32 (d0 + D)).

(** The message followed by 0x80, zeros up to 56 modulo 64, and the bit
    length as 8 little-endian bytes. *)
Definition pad (msg : bytes) : bytes :=
  let len := Z.of_nat (length msg) in
  let zeros := Z.to_nat ((55 - len) mod 64) in
  msg ++ [0x80] ++ replicate zeros 0 ++ leBytes 8 ((8 * len) mod 2 ^ 64).

Fixpoint blocks (n : nat) (st : state) (data : bytes) : state :=
  match n with
  | O => st
  | Datatypes.S n' => blocks n' (compress st (take 64 data)) (drop 64 data)
  end.

Definition digest (msg : bytes) : bytes :=
  let data := pad msg in
  let '(A, B, C, D) := blocks (length data / 64)%nat init data in
  leBytes 4 A ++ leBytes 4 B ++ leBytes 4 C ++ leBytes 4 D.

End MD5.

(** [buffer.toString('hex')]: two lower-case digits per byte. *)
Definition toHex (bs : bytes) : jsstr :=
  flat_map (fun b => [digitChar (b / 16); digitChar (b mod 16)]) bs.

(** A [Hash] object is the bytes given to [update] so far; the digest is
    taken over all of them at once. *)
Definition hash_update (h : bytes) (s : jsstr) : bytes := h ++ utf8Encode s.
Definition hash_digest_hex (h : bytes) : jsstr := toHex (MD5.digest h).

(** ** The file system *)

(** A directory holds its listing, in the order [readdirSync] reports it,
    and the size [statSync] reports for it; a file holds its bytes. *)
Inductive node :=
  | Dir (size : Z) (entries : list jsstr)
  | File (content : bytes).

Abbreviation FS := (gmap jsstr node).

(** An exception value: its message. *)
Abbreviation error := jsstr.

(** The text before the last slash of a path, and the text after it. *)
Fixpoint splitLastSlash (p : jsstr) : option (jsstr * jsstr) :=
  match p with
  | [] => None
  | c :: p' =>
      match splitLastSlash p' with
      | Some (d, leaf) => Some (c :: d, leaf)
      | None => if isSlash c then Some ([], p') else None
      end
  end.

Definition parentOf (p : jsstr) : jsstr :=
  match splitLastSlash p with
  | Some ([], _) => lit "/"
  | Some (d, _) => d
  | None => lit "."
  end.

Definition leafOf (p : jsstr) : jsstr :=
  match splitLastSlash p with
  | Some (_, leaf) => leaf
  | None => p
  end.

(** Whether the nearest existing ancestor of [p] is a regular file;
    [fuel] bounds the number of ancestors looked at. *)
Fixpoint hasFileAncestor (fuel : nat) (fs : FS) (p : jsstr) : bool :=
  match fuel with
  | O => false
  | S fuel' =>
      match fs !! parentOf p with
      | Some (File _) => true
      | Some (Dir _ _) => false
      | None => hasFileAncestor fuel' fs (parentOf p)
      end
  end.

(** The error of a call on a path that does not exist: [ENOTDIR] when a
    component of the path is a regular file, [ENOENT] otherwise. *)
Definition missingError (fs : FS) (p : jsstr) : error :=
  if hasFileAncestor (length p) fs p then lit "ENOTDIR" else lit "ENOENT".

(** The file-system calls below take a path as the script passes it: every
    path the script uses is a result of [path.join], so it is normalized,
    and the text before its last slash is its parent directory. *)

(** [fs.existsSync(p)] *)
Definition fs_existsSync (fs : FS) (p : jsstr) : bool := bool_decide (is_Some (fs !! p)).

(** [fs.readdirSync(p)] *)
Definition fs_readdirSync (fs : FS) (p : jsstr) : error + list jsstr :=
  match fs !! p with
  | Some (Dir _ entries) => inr entries
  | Some (File _) => inl (lit "ENOTDIR")
  | None => inl (missingError fs p)
  end.

(** [fs.statSync(p).size] *)
Definition fs_statSize (fs : FS) (p : jsstr) : error + Z :=
  match fs !! p with
  | Some (Dir size _) => inr size
  | Some (File content) => inr (Z.of_nat (length content))
  | None => inl (missingError fs p)
  end.

(** What a read stream opened on [p] delivers. *)
Definition fs_readFile (fs : FS) (p : jsstr) : error + bytes :=
  match fs !! p with
  | Some (File content) => inr content
  | Some (Dir _ _) => inl (lit "EISDIR")
  | None => inl (missingError fs p)
  end.

(** Adds [leaf] to the listing of directory [d] when it is not there yet. *)
Definition addEntry (fs : FS) (d leaf : jsstr) : FS :=
  match fs !! d with
  | Some (Dir size entries) =>
      if bool_decide (leaf ∈ entries) then fs
      else <[d := Dir size (entries ++ [leaf])]> fs
  | _ => fs
  end.

(** [fs.writeFileSync(p, content)]: the parent must be a directory and [p]
    must not be one. *)
Definition fs_writeFileSync (fs : FS) (p : jsstr) (content : bytes) : error + FS :=
  match fs !! p with
  | Some (Dir _ _) => inl (lit "EISDIR")
  | _ =>
      match fs !! parentOf p with
      | Some (Dir _ _) => inr (<[p := File content]> (addEntry fs (parentOf p) (leafOf p)))
      | Some (File _) => inl (lit "ENOTDIR")
      | None => inl (missingError fs (parentOf p))
      end
  end.

(** Creates [p] after its missing ancestors; [fuel] bounds the number of
    ancestors looked at.  An existing directory is left alone; a new one
    reports size 4096; nothing is created below a regular file. *)
Fixpoint mkdirAncestors (fuel : nat) (fs : FS) (p : jsstr) : error + FS :=
  match fs !! p with
  | Some (Dir _ _) => inr fs
  | Some (File _) => inl (lit "EEXIST")
  | None =>
      match fuel with
      | O => inl (lit "ENOENT")
      | S fuel' =>
          match fs !! parentOf p with
          | Some (File _) => inl (lit "ENOTDIR")
          | _ =>
              match mkdirAncestors fuel' fs (parentOf p) with
              | inr fs' => inr (<[p := Dir 4096 []]> (addEntry fs' (parentOf p) (leafOf p)))
              | inl e => inl e
              end
          end
      end
  end.

(** [fs.mkdirSync(p, { recursive: true })]: a path has at most as many
    ancestors as characters. *)
Definition fs_mkdirSyncRecursive (fs : FS) (p : jsstr) : error + FS :=
  mkdirAncestors (length p) fs p.

(** ** The process: console, readline interface, exit status *)

Record World := mkWorld {
  w_fs : FS;
  w_stdout : list jsstr;
  w_stderr : list jsstr;
  w_rlClosed : bool
}.

(** How a piece of the script ends: normally, by [process.exit(code)], or
    by an exception. *)
Inductive Result (A : Type) :=
  | Done (a : A) (w : World)
  | Exit (code : Z) (w : World)
  | Throw (err : error) (w : World).
Arguments Done {A} a w.
Arguments Exit {A} code w.
Arguments Throw {A} err w.

Definition Run (A : Type) : Type := World → Result A.

Definition run_ret {A} (a : A) : Run A := fun w => Done a w.

Definition run_bind {A B} (f : A → Run B) (m : Run A) : Run B :=
  fun w =>
    match m w with
    | Done a w' => f a w'
    | Exit code w' => Exit code w'
    | Throw err w' => Throw err w'
    end.

#[global] Instance Run_ret : MRet Run := @run_ret.
#[global] Instance Run_bind : MBind Run := @run_bind.

Definition process_exit {A} (code : Z) : Run A := fun w => Exit code w.
Definition throw {A} (err : error) : Run A := fun w => Throw err w.

(** [try { body } catch (error) { handler(error) }] *)
Definition tryCatch {A} (body : Run A) (handler : error → Run A) : Run A :=
  fun w =>
    match body w with
    | Throw err w' => handler err w'
    | r => r
    end.

Definition getFS : Run FS := fun w => Done (w_fs w) w.

Definition console_log (msg : jsstr) : Run unit :=
  fun w => Done tt (mkWorld (w_fs w) (w_stdout w ++ [msg]) (w_stderr w) (w_rlClosed w)).

(** [console.error(msg, err)] prints both, separated by a space. *)
Definition console_error (msg : jsstr) (err : error) : Run unit :=
  fun w => Done tt (mkWorld (w_fs w) (w_stdout w) (w_stderr w ++ [msg ++ lit " " ++ err]) (w_rlClosed w)).

Definition rl_close : Run unit :=
  fun w => Done tt (mkWorld (w_fs w) (w_stdout w) (w_stderr w) true).

(** Runs a file-system call that returns a value or throws. *)
Definition fsRead {A} (op : FS → error + A) : Run A :=
  fun w => match op (w_fs w) with inr a => Done a w | inl e => Throw e w end.

(** Runs a file-system call that changes the file system or throws. *)
Definition fsWrite (op : FS → error + FS) : Run unit :=
  fun w =>
    match op (w_fs w) with
    | inr fs' => Done tt (mkWorld fs' (w_stdout w) (w_stderr w) (w_rlClosed w))
    | inl e => Throw e w
    end.

(** A collaborator that returns a value or throws. *)
Definition liftCall {A} (r : error + A) : Run A :=
  fun w => match r with inr a => Done a w | inl e => Throw e w end.

(** ** The Input Collector and the Change Detector *)

(** [readSVGFiles(directory)] *)
Definition readSVGFiles (directory : jsstr) : Run (list jsstr) :=
  listing ← fsRead (fun fs => fs_readdirSync fs directory);
  mret (collectSVG directory listing).

(** The body of the [forEach] in [getSVGFilesHash]: the hash after [file]. *)
Definition hashFile (hash : bytes) (file : jsstr) : Run bytes :=
  size ← fsRead (fun fs => fs_statSize fs file);
  mret (hash_update (hash_update hash file) (toString10 size)).

Fixpoint hashFiles (hash : bytes) (files : list jsstr) : Run bytes :=
  match files with
  | [] => mret hash
  | file :: files' => hash' ← hashFile hash file; hashFiles hash' files'
  end.

(** [getSVGFilesHash(svgFiles)] *)
Definition getSVGFilesHash (svgFiles : list jsstr) : Run jsstr :=
  let hash := hash_update [] (toString10 (Z.of_nat (length svgFiles))) in
  hash' ← hashFiles hash svgFiles;
  mret (hash_digest_hex hash').

(** The ordered [{path, size}] pairs [getSVGFilesHash] reads: each path
    with the size [statSync] reports for it. *)
Fixpoint sizedFiles (fs : FS) (svgFiles : list jsstr) : error + list (jsstr * Z) :=
  match svgFiles with
  | [] => inr []
  | file :: files' =>
      match fs_statSize fs file, sizedFiles fs files' with
      | inr size, inr rest => inr ((file, size) :: rest)
      | inl e, _ => inl e
      | _, inl e => inl e
      end
  end.

(** The bytes the hash object has been given once the loop is over: the
    count, then path and size of every file, with nothing in between. *)
Definition hashInput (entries : list (jsstr * Z)) : bytes :=
  utf8Encode (toString10 (Z.of_nat (length entries))) ++
  flat_map (fun e => utf8Encode (fst e) ++ utf8Encode (toString10 (snd e))) entries.

(** [saveFile(filePath, content)] with the content already as bytes. *)
Definition saveFile (filePath : jsstr) (content : bytes) : Run unit :=
  fsWrite (fun fs => fs_writeFileSync fs filePath content).

(** ** External collaborators *)

(** A glyph written to the font stream: what its read stream delivers and
    the metadata set on it. *)
Record Glyph := mkGlyph {
  glyph_source : error + bytes;
  glyph_metadata : GlyphMetadata
}.

(** A chunk the font stream emits on ['data']. *)
Inductive Chunk :=
  | BufferChunk (b : bytes)
  | StringChunk (s : jsstr).

(** An event of the font stream that [generateFont] listens to. *)
Inductive StreamEvent :=
  | DataEvent (chunk : Chunk)
  | FinishEvent
  | ErrorEvent (err : error).

(** What happens after [end()].  The three listeners are independent, so
    in general the stream delivers a sequence of events
    ([StreamEvents]); [StreamFinish] is the run without any ['error']
    (['data'] for every chunk, then ['finish']) and [StreamError] is a
    single ['error'] with nothing after it.  [StreamUncaught] is an
    ['error'] on the read stream of an icon: [generateFont] puts no
    listener on it, so it is an uncaught exception. *)
Inductive StreamOutcome :=
  | StreamFinish (chunks : list Chunk)
  | StreamError (err : error)
  | StreamEvents (events : list StreamEvent)
  | StreamUncaught (err : error).

Record Env := mkEnv {
  (** [process.cwd()] *)
  env_cwd : jsstr;
  (** the line typed at the prompt; [None] when the input ends first *)
  env_answer : option jsstr;
  (** [SVGIcons2SVGFontStream] with the options of [generateFont], fed by
      the read streams of the glyphs *)
  env_fontStream : jsstr → list Glyph → StreamOutcome;
  (** [svg2ttf] on the UTF-8 text of the buffer; returns [ttf.buffer] *)
  env_svg2ttf : bytes → error + bytes;
  (** [ttf2woff2] *)
  env_ttf2woff2 : bytes → error + bytes
}.

(** ** [generateFont] *)

(** The ['data'] handler: a chunk that is not a buffer is encoded. *)
Definition chunkBuffer (chunk : Chunk) : bytes :=
  match chunk with
  | BufferChunk b => b
  | StringChunk s => utf8Encode s
  end.

(** The glyphs written to the font stream by the [forEach].  The source
    of a glyph is what its read stream delivers: the bytes of the file, or
    the error it emits when the file cannot be read.  What that error
    leads to is up to the stream ([env_fontStream], [StreamUncaught]). *)
Definition glyphs (fs : FS) (svgFiles : list jsstr) : list Glyph :=
  imap (fun index file => mkGlyph (fs_readFile fs file) (glyphMetadata index file)) svgFiles.

(** The error of the first glyph whose read stream fails. *)
Fixpoint firstReadError (gs : list Glyph) : option error :=
  match gs with
  | [] => None
  | g :: gs' =>
      match glyph_source g with
      | inl e => Some e
      | inr _ => firstReadError gs'
      end
  end.

(** The body of the [try] in the ['finish'] handler. *)
Definition onFinish (env : Env) (svgChunks : list bytes) (svgFiles : list jsstr)
    (fontName outputDir : jsstr) : Run unit :=
  let svgFontBuffer := concat svgChunks in
  ttfBuffer ← liftCall (env_svg2ttf env svgFontBuffer);
  woff2 ← liftCall (env_ttf2woff2 env ttfBuffer);
  let woff2Path := path_join [outputDir; fontName ++ lit ".woff2"] in
  saveFile woff2Path woff2;;
  let cssPath := path_join [outputDir; fontName ++ lit ".css"] in
  saveFile cssPath (utf8Encode (cssOutput fontName svgFiles));;
  console_log (lit "Font generation complete! CSS and WOFF2 files have been generated.");;
  rl_close.

(** The ['finish'] handler: the [try] with its [catch]. *)
Definition finishHandler (env : Env) (svgChunks : list bytes) (svgFiles : list jsstr)
    (fontName outputDir : jsstr) : Run unit :=
  tryCatch
    (onFinish env svgChunks svgFiles fontName outputDir)
    (fun error => console_error (lit "Error during font generation:") error;; rl_close).

(** The ['error'] handler. *)
Definition errorHandler (err : error) : Run unit :=
  console_error (lit "Error in SVGIcons2SVGFontStream:") err;; rl_close.

(** The three listeners run on a sequence of events; [svgChunks] is the
    array the ['data'] handler pushes to. *)
Fixpoint handleEvents (env : Env) (svgFiles : list jsstr) (fontName outputDir : jsstr)
    (svgChunks : list bytes) (events : list StreamEvent) : Run unit :=
  match events with
  | [] => mret tt
  | DataEvent chunk :: events' =>
      handleEvents env svgFiles fontName outputDir (svgChunks ++ [chunkBuffer chunk]) events'
  | FinishEvent :: events' =>
      finishHandler env svgChunks svgFiles fontName outputDir;;
      handleEvents env svgFiles fontName outputDir svgChunks events'
  | ErrorEvent err :: events' =>
      errorHandler err;;
      handleEvents env svgFiles fontName outputDir svgChunks events'
  end.

(** [generateFont(svgFiles, fontName, outputDir)], run until the font
    stream has delivered its events. *)
Definition generateFont (env : Env) (svgFiles : list jsstr) (fontName outputDir : jsstr)
    : Run unit :=
  fs ← getFS;
  match env_fontStream env fontName (glyphs fs svgFiles) with
  | StreamFinish chunks =>
      finishHandler env (map chunkBuffer chunks) svgFiles fontName outputDir
  | StreamError err => errorHandler err
  | StreamEvents events => handleEvents env svgFiles fontName outputDir [] events
  | StreamUncaught err => throw err
  end.

(** ** The main function *)

Definition isWhiteSpace (c : Z) : bool :=
  bool_decide (c ∈ [9; 10; 11; 12; 13; 32; 160; 0x1680; 0x2028; 0x2029; 0x202F; 0x205F; 0x3000; 0xFEFF])
  || ((0x2000 <=? c) && (c <=? 0x200A)).

Fixpoint trimStart (s : jsstr) : jsstr :=
  match s with
  | c :: s' => if isWhiteSpace c then trimStart s' else s
  | [] => []
  end.

(** [s.trim()] *)
Definition trim (s : jsstr) : jsstr := reverse (trimStart (reverse (trimStart s))).

(** [s.toLowerCase()] on the letters [A-Z]; other code units are kept (no
    other character has ['s'] as its lower case, which is all the
    comparison below looks at). *)
Definition toLowerCase (s : jsstr) : jsstr :=
  map (fun c => if (65 <=? c) && (c <=? 90) then c + 32 else c) s.

(** [answer.trim().toLowerCase() === 's'] *)
Definition confirmed (answer : jsstr) : bool :=
  bool_decide (toLowerCase (trim answer) = lit "s").

Definition msgNoDirectory : jsstr :=
  lit "La cartella /svg non " ++ [232] ++ lit " stata trovata".
Definition msgNoFiles : jsstr := lit "Nessun file SVG trovato nella cartella /svg".
Definition msgQuestion : jsstr :=
  lit "La cartella fonts/icons esiste gi" ++ [224] ++ lit ". Vuoi sovrascrivere? (s/n): ".
Definition msgAborted : jsstr := lit "Operazione annullata.".

Definition when (b : bool) (m : Run unit) : Run unit := if b then m else mret tt.

(** [rl.question(query, callback)]: the query is printed; the callback runs
    on the line read, and never runs when the input ends without a line
    (the interface then closes by itself). *)
Definition rl_question (env : Env) (query : jsstr) (callback : jsstr → Run unit) : Run unit :=
  console_log query;;
  match env_answer env with
  | Some answer => callback answer
  | None => rl_close
  end.

Definition main (env : Env) : Run unit :=
  let currentDir := env_cwd env in
  let svgDirectory := path_join [currentDir; lit "svg"] in
  let outputDirectory := path_join [currentDir; lit "icons"] in
  let fontName := lit "icons" in
  svgExists ← fsRead (fun fs => inr (fs_existsSync fs svgDirectory));
  when (negb svgExists) (console_log msgNoDirectory;; process_exit 1);;
  svgFiles ← readSVGFiles svgDirectory;
  when (bool_decide (length svgFiles = 0%nat)) (console_log msgNoFiles;; process_exit 1);;
  outExists ← fsRead (fun fs => inr (fs_existsSync fs outputDirectory));
  needConfirmation ←
    (if outExists : bool then mret true
     else
       fsWrite (fun fs => fs_mkdirSyncRecursive fs (path_join [currentDir]));;
       fsWrite (fun fs => fs_mkdirSyncRecursive fs outputDirectory);;
       mret false);
  let proceed := generateFont env svgFiles fontName outputDirectory in
  if needConfirmation : bool then
    rl_question env msgQuestion (fun answer =>
      if confirmed answer then proceed
      else console_log msgAborted;; rl_close)
  else proceed.

(** What is seen of a finished run. *)
Record Outcome := mkOutcome {
  exitCode : Z;
  finalFS : FS;
  stdout : list jsstr;
  stderr : list jsstr
}.

(** The whole process started on file system [fs]: it ends with status 0
    when the script runs to its end, with the given status on
    [process.exit], and with status 1 when an exception escapes the main
    function. *)
Definition runProcess (env : Env) (fs : FS) : Outcome :=
  match main env (mkWorld fs [] [] false) with
  | Done _ w => mkOutcome 0 (w_fs w) (w_stdout w) (w_stderr w)
  | Exit code w => mkOutcome code (w_fs w) (w_stdout w) (w_stderr w)
  | Throw err w => mkOutcome 1 (w_fs w) (w_stdout w) (w_stderr w ++ [err])
  end.

(** ** Example data *)

Module Examples.

(** Two directories whose [.svg] files have different names and sizes. *)
Definition fsA : FS :=
  <[lit "a.svg" := File [0]]> (<[lit "2.svg" := File [0; 0; 0]]> ∅).
Definition fsB : FS :=
  <[lit "a.svg" := File (replicate 12 0)]> (<[lit ".svg" := File [0; 0; 0]]> ∅).
Definition filesA : list jsstr := collectSVG (lit ".") [lit "a.svg"; lit "2.svg"].
Definition filesB : list jsstr := collectSVG (lit ".") [lit "a.svg"; lit ".svg"].

Definition world (fs : FS) : World := mkWorld fs [] [] false.

(** A project in [/w] with one icon and no output directory yet. *)
Definition fsIcons : FS :=
  <[lit "/w" := Dir 4096 [lit "svg"]]>
  (<[lit "/w/svg" := Dir 4096 [lit "a.svg"]]>
  (<[lit "/w/svg/a.svg" := File (utf8Encode (lit "<svg/>"))]> ∅)).

(** The same project after an earlier run. *)
Definition fsPrior : FS :=
  <[lit "/w" := Dir 4096 [lit "svg"; lit "icons"]]>
  (<[lit "/w/icons" := Dir 4096 [lit "icons.css"]]>
  (<[lit "/w/icons/icons.css" := File (utf8Encode (lit "old"))]> fsIcons)).

(** The same project with a directory in the place of the stylesheet. *)
Definition fsCssIsDir : FS :=
  <[lit "/w" := Dir 4096 [lit "svg"; lit "icons"]]>
  (<[lit "/w/icons" := Dir 4096 [lit "icons.css"]]>
  (<[lit "/w/icons/icons.css" := Dir 4096 []]> fsIcons)).

(** A project without the [svg] directory, and one where it is empty. *)
Definition fsNoSvg : FS := <[lit "/w" := Dir 4096 []]> ∅.
Definition fsEmptySvg : FS :=
  <[lit "/w" := Dir 4096 [lit "svg"]]> (<[lit "/w/svg" := Dir 4096 []]> ∅).

Definition fontStreamOk (fontName : jsstr) (gs : list Glyph) : StreamOutcome :=
  StreamFinish [StringChunk (lit "<svg><font/>"); BufferChunk (utf8Encode (lit "</svg>"))].

(** Collaborators that all succeed. *)
Definition envOk : Env :=
  mkEnv (lit "/w") None fontStreamOk (fun b => inr (0 :: b)) (fun b => inr (1 :: b)).

(** [svg2ttf] throws. *)
Definition envTranscodeError : Env :=
  mkEnv (lit "/w") None fontStreamOk
    (fun _ => inl (lit "Error: svg2ttf failed")) (fun b => inr (1 :: b)).

(** The font stream emits ['error']. *)
Definition envAssemblyError : Env :=
  mkEnv (lit "/w") None (fun _ _ => StreamError (lit "Error: bad glyph"))
    (fun b => inr (0 :: b)) (fun b => inr (1 :: b)).

(** The font stream emits ['error'], then its data and ['finish']. *)
Definition envErrorThenFinish : Env :=
  mkEnv (lit "/w") None
    (fun _ _ => StreamEvents [ErrorEvent (lit "Error: bad glyph");
                              DataEvent (StringChunk (lit "<svg><font/>"));
                              DataEvent (BufferChunk (utf8Encode (lit "</svg>")));
                              FinishEvent])
    (fun b => inr (0 :: b)) (fun b => inr (1 :: b)).

(** A project whose only icon is a directory named [a.svg]. *)
Definition fsIconIsDir : FS :=
  <[lit "/w" := Dir 4096 [lit "svg"]]>
  (<[lit "/w/svg" := Dir 4096 [lit "a.svg"]]>
  (<[lit "/w/svg/a.svg" := Dir 4096 []]> ∅)).

(** A font stream over read streams that can fail. *)
Definition fontStreamReads (fontName : jsstr) (gs : list Glyph) : StreamOutcome :=
  match firstReadError gs with
  | Some e => StreamUncaught e
  | None => fontStreamOk fontName gs
  end.

Definition envReads : Env :=
  mkEnv (lit "/w") None fontStreamReads (fun b => inr (0 :: b)) (fun b => inr (1 :: b)).

(** The user answers [s] at the prompt. *)
Definition envAccept : Env :=
  mkEnv (lit "/w") (Some (lit " S ")) fontStreamOk (fun b => inr (0 :: b)) (fun b => inr (1 :: b)).

(** The user answers [n] at the prompt. *)
Definition envDecline : Env :=
  mkEnv (lit "/w") (Some (lit "n")) fontStreamOk (fun b => inr (0 :: b)) (fun b => inr (1 :: b)).

End Examples.

(** ** Notions used to state properties *)

(** A file or directory name: a segment that [normalizeSegments] keeps and
    that holds no slash. *)
Definition plainName (name : jsstr) : Prop :=
  plainSegment name ∧ Forall (fun c => isSlash c = false) name.

(** The normalized absolute path with the given segments: [/] for none,
    [/a/b] for [a] and [b]. *)
Definition absPath (segs : list jsstr) : jsstr := lit "/" ++ join (lit "/") segs.

(** A string of ASCII characters. *)
Definition isAscii (s : jsstr) : Prop := Forall (fun c => 0 ≤ c < 128) s.

(** A string of UTF-16 code units. *)
Definition isCodeUnits (s : jsstr) : Prop := Forall (fun c => 0 ≤ c < 65536) s.

(** The entries of a listing that [readSVGFiles] keeps. *)
Definition svgEntries (listing : list jsstr) : list jsstr :=
  filter (fun file => endsWith file (lit ".svg") = true) listing.

(** No directory is at path [p]. *)
Definition notDir (fs : FS) (p : jsstr) : Prop :=
  ∀ size entries, fs !! p ≠ Some (Dir size entries).

(** The listing of a directory after an entry named [leaf] is written. *)
Definition withEntry (entries : list jsstr) (leaf : jsstr) : list jsstr :=
  if bool_decide (leaf ∈ entries) then entries else entries ++ [leaf].

(** The font stream finishes without an ['error'] event and [svg2ttf] or
    [ttf2woff2] throws; [line] is what is printed on the error output
    then. *)
Definition converterFails (env : Env) (fontName : jsstr) (fs : FS) (svgFiles : list jsstr)
    (line : jsstr) : Prop :=
  ∃ chunks e, env_fontStream env fontName (glyphs fs svgFiles) = StreamFinish chunks ∧
        line = lit "Error during font generation:" ++ lit " " ++ e ∧
        (env_svg2ttf env (concat (map chunkBuffer chunks)) = inl e ∨
         ∃ ttf, env_svg2ttf env (concat (map chunkBuffer chunks)) = inr ttf ∧
                env_ttf2woff2 env ttf = inl e).

(** The read stream of an icon that cannot be read emits ['error'], which
    nothing listens to. *)
Definition readErrorsUncaught (env : Env) : Prop :=
  ∀ fontName gs,
    Exists (fun g => ∃ e, glyph_source g = inl e) gs →
    ∃ e, env_fontStream env fontName gs = StreamUncaught e.

(** The test behind [isAscii]. *)
Definition asciiChar (c : Z) : bool := (0 <=? c) && (c <? 128).

(** The selector of the rule for a glyph name. *)
Definition selector (name : jsstr) : jsstr := lit ".icon-" ++ name ++ lit ":before".

(** The declaration block of the rule for a code point. *)
Definition declaration (code : Z) : jsstr :=
  lit " { content: " ++ dquote ++ lit "\" ++ toString16 code ++ dquote ++ lit "; }".

(** A chunk as the font stream can emit it: a buffer of bytes, or a string
    of code units. *)
Definition validChunk (chunk : Chunk) : Prop :=
  match chunk with
  | BufferChunk b => Forall (fun x => 0 ≤ x < 256) b
  | StringChunk s => isCodeUnits s
  end.

(** A continuation byte of UTF-8: [10xxxxxx]. *)
Definition isContinuation (b : Z) : bool := (0x80 <=? b) && (b <? 0xC0).

(** A Unicode scalar value: a code point that is not a surrogate. *)
Definition isScalar (cp : Z) : bool :=
  (0 <=? cp) && (cp <? 0x110000) && negb ((0xD800 <=? cp) && (cp <? 0xE000)).

(** The code points a sequence of bytes stands for in UTF-8 (RFC 3629):
    one to four bytes per code point, no overlong form, no surrogate,
    nothing above U+10FFFF; [None] when the bytes are not UTF-8. *)
Fixpoint utf8Decode (bs : bytes) : option (list Z) :=
  match bs with
  | [] => Some []
  | b0 :: r0 =>
      if (0 <=? b0) && (b0 <? 0x80) then cons b0 <$> utf8Decode r0
      else
        match r0 with
        | [] => None
        | b1 :: r1 =>
            if (0xC0 <=? b0) && (b0 <? 0xE0) then
              let cp := (b0 - 0xC0) * 0x40 + (b1 - 0x80) in
              if isContinuation b1 && (0x80 <=? cp)
              then cons cp <$> utf8Decode r1 else None
            else
              match r1 with
              | [] => None
              | b2 :: r2 =>
                  if (0xE0 <=? b0) && (b0 <? 0xF0) then
                    let cp := (b0 - 0xE0) * 0x1000 + (b1 - 0x80) * 0x40 + (b2 - 0x80) in
                    if isContinuation b1 && isContinuation b2 && (0x800 <=? cp) && isScalar cp
                    then cons cp <$> utf8Decode r2 else None
                  else
                    match r2 with
                    | [] => None
                    | b3 :: r3 =>
                        let cp := (b0 - 0xF0) * 0x40000 + (b1 - 0x80) * 0x1000
                                  + (b2 - 0x80) * 0x40 + (b3 - 0x80) in
                        if (0xF0 <=? b0) && (b0 <? 0xF8) && isContinuation b1
                           && isContinuation b2 && isContinuation b3
                           && (0x10000 <=? cp) && isScalar cp
                        then cons cp <$> utf8Decode r3 else None
                    end
              end
        end
  end.

(** The text a string of UTF-16 code units stands for: a high surrogate
    followed by a low one is one code point above U+FFFF, any other
    surrogate is replaced by U+FFFD, every other code unit is its own code
    point. *)
Fixpoint codePoints (s : jsstr) : list Z :=
  match s with
  | [] => []
  | c :: rest =>
      if isHighSurrogate c then
        match rest with
        | d :: rest' =>
            if isLowSurrogate d
            then (0x10000 + (c - 0xD800) * 0x400 + (d - 0xDC00)) :: codePoints rest'
            else 0xFFFD :: codePoints rest
        | [] => [0xFFFD]
        end
      else if isLowSurrogate c then 0xFFFD :: codePoints rest
      else c :: codePoints rest
  end.

(** The world a piece of the script leaves behind, however it ends. *)
Definition worldAfter {A} (r : Result A) : World :=
  match r with
  | Done _ w => w
  | Exit _ w => w
  | Throw _ w => w
  end.

(** Path [p] is a directory whose listing holds exactly the names that
    satisfy [P]. *)
Definition dirLists (fs : FS) (p : jsstr) (P : jsstr → Prop) : Prop :=
  ∃ size entries, fs !! p = Some (Dir size entries) ∧ ∀ name, name ∈ entries ↔ P name.

(** * Properties *)

(** ** Sanitization *)

Section Sanitize.

Lemma sanitize_cons c name :
  sanitizeGlyphName (c :: name) =
  (if isAlnum c then c else 45) :: sanitizeGlyphName name.
Proof. unfold sanitizeGlyphName. simpl. by destruct (isAlnum c). Qed.

Lemma sanitize_length name : length (sanitizeGlyphName name) = length name.
Proof.
  induction name as [|c name IH]; [done|].
  rewrite sanitize_cons. simpl. by rewrite IH.
Qed.

Lemma sanitize_lookup name (i : nat) c :
  name !! i = Some c →
  sanitizeGlyphName name !! i = Some (if isAlnum c then c else 45).
Proof.
  revert i. induction name as [|d name IH]; intros [|i] H; try done.
  - rewrite sanitize_cons. simpl in *. by simplify_eq.
  - rewrite sanitize_cons. simpl in *. by apply IH.
Qed.

Lemma sanitize_chars name : Forall (fun c => isNameChar c = true) (sanitizeGlyphName name).
Proof.
  induction name as [|c name IH]; [constructor|].
  rewrite sanitize_cons. constructor; [|done].
  unfold isNameChar. destruct (isAlnum c) eqn:E; [by rewrite E|done].
Qed.

Lemma sanitize_fixed name :
  Forall (fun c => isNameChar c = true) name → sanitizeGlyphName name = name.
Proof.
  induction 1 as [|c name Hc _ IH]; [done|].
  rewrite sanitize_cons, IH. f_equal.
  unfold isNameChar in Hc. destruct (isAlnum c); [done|].
  simpl in Hc. apply Z.eqb_eq in Hc. done.
Qed.

End Sanitize.

(** C1. [sanitizeGlyphName] keeps the length of its input; at every position
    an alphanumeric code unit is kept as it is and any other code unit
    becomes ['-'], one for one, so the result contains only [A-Za-z0-9-];
    hyphens are not collapsed and letter case is not changed. *)
Theorem C1_sanitize_one_for_one (name : jsstr) :
  length (sanitizeGlyphName name) = length name ∧
  (∀ (i : nat) c, name !! i = Some c →
     sanitizeGlyphName name !! i = Some (if isAlnum c then c else 45)) ∧
  Forall (fun c => isNameChar c = true) (sanitizeGlyphName name) ∧
  sanitizeGlyphName (lit "a  b__C") = lit "a--b--C".
Proof.
  split; [apply sanitize_length|].
  split; [intros i c; apply sanitize_lookup|].
  split; [apply sanitize_chars|done].
Qed.

(** The replacement works on UTF-16 code units: a character outside the
    Basic Multilingual Plane is two code units and becomes two hyphens. *)
Example sanitize_surrogate_pair :
  sanitizeGlyphName (lit "a" ++ [0xD83D; 0xDE00] ++ lit "B") = lit "a--B".
Proof. reflexivity. Qed.

Lemma C1_sanitize_one_for_one_witness :
  sanitizeGlyphName (lit "my icon.v2") !! 2%nat = Some 45 ∧
  sanitizeGlyphName (lit "my icon.v2") !! 3%nat = Some 105.
Proof.
  pose proof (C1_sanitize_one_for_one (lit "my icon.v2")) as (_ & H & _).
  split.
  - exact (H 2%nat 32 eq_refl).
  - exact (H 3%nat 105 eq_refl).
Defined.

(** C10. Sanitizing twice is the same as sanitizing once. *)
Theorem C10_sanitize_idempotent (s : jsstr) :
  sanitizeGlyphName (sanitizeGlyphName s) = sanitizeGlyphName s.
Proof. apply sanitize_fixed, sanitize_chars. Qed.

(** ** Code points *)

Section CodePoints.

Lemma glyphCodePoint_eq (index : nat) :
  glyphCodePoint index = Some ((0xe000 + Z.of_nat index) mod 65536).
Proof. done. Qed.

Lemma glyphCodePoint_in_range (index : nat) :
  (index < 0x2000)%nat → glyphCodePoint index = Some (0xe000 + Z.of_nat index).
Proof.
  intros H. rewrite glyphCodePoint_eq. f_equal.
  apply Z.mod_small. lia.
Qed.

Lemma glyphCodePoint_bounds (index : nat) code :
  glyphCodePoint index = Some code → 0 ≤ code < 65536.
Proof.
  rewrite glyphCodePoint_eq. intros [= <-].
  apply Z.mod_pos_bound. lia.
Qed.

Lemma glyphMetadata_unicode (index : nat) file code :
  glyphCodePoint index = Some code →
  meta_unicode (glyphMetadata index file) = [[code]].
Proof. rewrite glyphCodePoint_eq. intros [= <-]. done. Qed.

End CodePoints.

(** C2, the claim as stated fails: the icon at index 0x2000 does not get
    code point 0xE000 + 0x2000; its code unit wraps around to 0. *)
Lemma C2_counterexample :
  glyphCodePoint 0x2000 = Some 0 ∧
  glyphCodePoint 0x2000 ≠ Some (0xe000 + Z.of_nat 0x2000).
Proof. split; [done|]. rewrite glyphCodePoint_eq. vm_compute. discriminate. Qed.

(** C2, amended.  The code point of the icon at [index] is
    [(0xE000 + index) mod 0x10000], for every index and without any bound
    check; for the first 0x2000 icons this is [0xE000 + index], and two
    different indices in that range get different code points.  The same
    code unit is the glyph's [unicode] metadata. *)
Theorem C2_code_point_assignment (i j : nat) (file : jsstr) :
  (i < 0x2000)%nat → (j < 0x2000)%nat →
  glyphCodePoint i = Some (0xe000 + Z.of_nat i) ∧
  meta_unicode (glyphMetadata i file) = [[0xe000 + Z.of_nat i]] ∧
  (i ≠ j → glyphCodePoint i ≠ glyphCodePoint j) ∧
  (∀ k : nat, glyphCodePoint k = Some ((0xe000 + Z.of_nat k) mod 65536)).
Proof.
  intros Hi Hj.
  split; [by apply glyphCodePoint_in_range|].
  split; [by apply glyphMetadata_unicode, glyphCodePoint_in_range|].
  split; [|apply glyphCodePoint_eq].
  intros Hne. rewrite !glyphCodePoint_in_range by done.
  intros [= H]. lia.
Qed.

Lemma C2_code_point_assignment_witness :
  glyphCodePoint 2 = Some 0xe002 ∧ glyphCodePoint 2 ≠ glyphCodePoint 5.
Proof.
  pose proof (C2_code_point_assignment 2 5 [] ltac:(vm_compute; lia) ltac:(vm_compute; lia))
    as (H1 & _ & H3 & _).
  split; [exact H1|apply H3; lia].
Defined.

(** ** Number formatting *)

Section Digits.

Lemma digitChar_hex (d : Z) : 0 ≤ d < 16 → isHexDigit (digitChar d) = true.
Proof.
  intros H. unfold isHexDigit, digitChar.
  destruct (Z.ltb_spec d 10); apply orb_true_iff; [left|right];
    apply andb_true_iff; split; apply Z.leb_le; lia.
Qed.

Lemma hexDigitValue_digitChar (d : Z) : 0 ≤ d < 16 → hexDigitValue (digitChar d) = d.
Proof.
  intros H. unfold hexDigitValue, digitChar.
  destruct (Z.ltb_spec d 10).
  - destruct (Z.ltb_spec (48 + d) 58); lia.
  - destruct (Z.ltb_spec (87 + d) 58); lia.
Qed.

Lemma digitsLoop_hex (fuel : nat) (n : Z) (acc : jsstr) :
  Forall (fun c => isHexDigit c = true) acc →
  Forall (fun c => isHexDigit c = true) (digitsLoop 16 fuel n acc).
Proof.
  revert n acc. induction fuel as [|fuel IH]; intros n acc Hacc; [done|].
  simpl.
  assert (Forall (fun c => isHexDigit c = true) (digitChar (n mod 16) :: acc)) as H.
  { constructor; [|done]. apply digitChar_hex, Z.mod_pos_bound. lia. }
  destruct (n / 16 =? 0); [done|]. by apply IH.
Qed.

Lemma toString16_hex (n : Z) : Forall (fun c => isHexDigit c = true) (toString16 n).
Proof. apply digitsLoop_hex. constructor. Qed.

Lemma hexValue_foldl (l : jsstr) (a : Z) :
  foldl (fun acc c => 16 * acc + hexDigitValue c) a l =
  a * 16 ^ Z.of_nat (length l) + hexValue l.
Proof.
  unfold hexValue. revert a.
  induction l as [|c l IH]; intros a; simpl; [lia|].
  rewrite IH, (IH (16 * 0 + _)).
  rewrite Nat2Z.inj_succ, Z.pow_succ_r by lia. lia.
Qed.

Lemma hexValue_cons (c : Z) (l : jsstr) :
  hexValue (c :: l) = hexDigitValue c * 16 ^ Z.of_nat (length l) + hexValue l.
Proof. unfold hexValue at 1. simpl. rewrite hexValue_foldl. lia. Qed.

Lemma digitsLoop_value (fuel : nat) (n : Z) (acc : jsstr) :
  0 ≤ n < 2 ^ Z.of_nat fuel →
  hexValue (digitsLoop 16 fuel n acc) = n * 16 ^ Z.of_nat (length acc) + hexValue acc.
Proof.
  revert n acc. induction fuel as [|fuel IH]; intros n acc Hn.
  - simpl in *. assert (n = 0) as -> by lia. lia.
  - rewrite Nat2Z.inj_succ, Z.pow_succ_r in Hn by lia.
    pose proof (Z.mod_pos_bound n 16 ltac:(lia)) as Hm.
    pose proof (Z.div_mod n 16 ltac:(lia)) as Hd.
    cbn [digitsLoop].
    destruct (Z.eqb_spec (n / 16) 0) as [Hz|Hz].
    + rewrite hexValue_cons, hexDigitValue_digitChar by done. nia.
    + rewrite IH.
      * rewrite hexValue_cons, hexDigitValue_digitChar by done.
        cbn [length]. rewrite Nat2Z.inj_succ, Z.pow_succ_r by lia. nia.
      * split; [apply Z.div_pos; lia|].
        apply Z.div_lt_upper_bound; lia.
Qed.

Lemma toString16_value (n : Z) : 0 ≤ n → hexValue (toString16 n) = n.
Proof.
  intros Hn. unfold toString16, toStringRadix.
  rewrite digitsLoop_value; [simpl; unfold hexValue; simpl; lia|].
  destruct (Z.eq_dec n 0) as [->|Hne]; [done|].
  pose proof (Z.log2_spec n ltac:(lia)) as Hl.
  pose proof (Z.log2_nonneg n).
  rewrite Nat2Z.inj_succ, Z2Nat.id by done. lia.
Qed.

End Digits.

(** ** The stylesheet *)

Section Stylesheet.

Lemma plain_app (a b : jsstr) :
  forallb plainChar (a ++ b) = forallb plainChar a && forallb plainChar b.
Proof. apply forallb_app. Qed.

Lemma plain_of_Forall (P : Z → Prop) (s : jsstr) :
  (∀ c, P c → plainChar c = true) → Forall P s → forallb plainChar s = true.
Proof.
  intros HP H. induction H as [|c s Hc _ IH]; [done|].
  simpl. by rewrite (HP c Hc), IH.
Qed.

Lemma isNameChar_plain (c : Z) : isNameChar c = true → plainChar c = true.
Proof.
  unfold isNameChar, isAlnum, plainChar. intros H.
  destruct (Z.eqb_spec c 10) as [->|]; [done|].
  destruct (Z.eqb_spec c 64) as [->|]; done.
Qed.

Lemma isHexDigit_plain (c : Z) : isHexDigit c = true → plainChar c = true.
Proof.
  unfold isHexDigit, plainChar. intros H.
  destruct (Z.eqb_spec c 10) as [->|]; [done|].
  destruct (Z.eqb_spec c 64) as [->|]; done.
Qed.

Lemma glyphName_plain (file : jsstr) : forallb plainChar (glyphName file) = true.
Proof.
  apply (plain_of_Forall (fun c => isNameChar c = true)); [apply isNameChar_plain|].
  apply sanitize_chars.
Qed.

Lemma cssRule_plain (index : nat) (file : jsstr) :
  forallb plainChar (cssRule index file) = true.
Proof.
  unfold cssRule. rewrite glyphCodePoint_eq. cbn [codeToString16].
  rewrite !plain_app, glyphName_plain.
  rewrite (plain_of_Forall (fun c => isHexDigit c = true) (toString16 _));
    [done|apply isHexDigit_plain|apply toString16_hex].
Qed.

Lemma cssContent_plain (svgFiles : list jsstr) :
  Forall (fun rule => forallb plainChar rule = true) (cssContent svgFiles).
Proof.
  apply Forall_lookup_2. intros i rule. unfold cssContent.
  rewrite list_lookup_imap. destruct (svgFiles !! i); [|done].
  intros [= <-]. apply cssRule_plain.
Qed.

Lemma join_plain (rules : list jsstr) :
  Forall (fun rule => forallb plainChar rule = true) rules →
  forallb (fun c => negb (c =? 64)) (join nl rules) = true.
Proof.
  induction 1 as [|rule rules Hr _ IH]; [done|].
  assert (forallb (fun c => negb (c =? 64)) rule = true) as Hrule.
  { clear -Hr. induction rule as [|c rule IHr]; [done|].
    simpl in *. apply andb_true_iff in Hr as [Hc Hr].
    apply andb_true_iff in Hc as [_ Hc]. by rewrite Hc, IHr. }
  destruct rules as [|rule' rules]; [done|].
  change (join nl (rule :: rule' :: rules)) with (rule ++ nl ++ join nl (rule' :: rules)).
  rewrite !forallb_app, Hrule, IH. done.
Qed.

(** *** Splitting into lines *)

Lemma splitChar_plain (cur s : jsstr) :
  forallb plainChar s = true → splitChar 10 cur s = [reverse cur ++ s].
Proof.
  revert cur. induction s as [|c s IH]; intros cur H; simpl in *.
  - by rewrite app_nil_r.
  - apply andb_true_iff in H as [Hc H].
    unfold plainChar in Hc. apply andb_true_iff in Hc as [Hc _].
    apply negb_true_iff in Hc. rewrite Hc, IH by done.
    by rewrite reverse_cons, <- app_assoc.
Qed.

Lemma splitChar_line (cur s rest : jsstr) :
  forallb plainChar s = true →
  splitChar 10 cur (s ++ nl ++ rest) = (reverse cur ++ s) :: splitChar 10 [] rest.
Proof.
  revert cur. induction s as [|c s IH]; intros cur H; simpl in *.
  - by rewrite app_nil_r.
  - apply andb_true_iff in H as [Hc H].
    unfold plainChar in Hc. apply andb_true_iff in Hc as [Hc _].
    apply negb_true_iff in Hc. rewrite Hc, IH by done.
    by rewrite reverse_cons, <- app_assoc.
Qed.

Lemma split_join_lines (rules : list jsstr) :
  rules ≠ [] →
  Forall (fun rule => forallb plainChar rule = true) rules →
  splitChar 10 [] (join nl rules) = rules.
Proof.
  intros Hne H. induction H as [|rule rules Hr _ IH]; [done|].
  destruct rules as [|rule' rules].
  - simpl. by rewrite splitChar_plain.
  - change (join nl (rule :: rule' :: rules)) with (rule ++ nl ++ join nl (rule' :: rules)).
    rewrite splitChar_line by done. simpl reverse. rewrite IH by done. done.
Qed.

(** *** Occurrences of [@font-face] *)

Lemma count_no_at (s : jsstr) :
  forallb (fun c => negb (c =? 64)) s = true →
  countOccurrences (lit "@font-face") s = 0%nat.
Proof.
  induction s as [|c s IH]; [done|].
  intros H. simpl in H. apply andb_true_iff in H as [Hc H].
  apply negb_true_iff in Hc.
  cbn [countOccurrences]. rewrite IH by done.
  change (lit "@font-face") with (64 :: lit "font-face").
  cbn [startsWith]. rewrite Z.eqb_sym, Hc. done.
Qed.

Lemma fontFace_shape (fontName rest : jsstr) :
  ∃ tail : jsstr,
    fontFace fontName ++ rest = 10 :: 64 :: lit "font-face" ++ tail ∧
    (64 ∉ fontName →
     forallb (fun c => negb (c =? 64)) rest = true →
     forallb (fun c => negb (c =? 64)) tail = true).
Proof.
  unfold fontFace, fontFaceBlock, baseRule, nl, dquote.
  rewrite <- !app_assoc.
  change (lit "@font-face { ") with ([64] ++ lit "font-face" ++ lit " { ").
  rewrite <- !app_assoc.
  eexists. split; [reflexivity|].
  intros Hfn Hrest.
  assert (forallb (fun c => negb (c =? 64)) fontName = true) as Hf.
  { clear -Hfn. induction fontName as [|c s IH]; [done|].
    simpl. apply not_elem_of_cons in Hfn as [Hc Hs].
    rewrite IH by done. destruct (Z.eqb_spec c 64); [congruence|done]. }
  rewrite !forallb_app, Hf, Hrest. reflexivity.
Qed.

Lemma count_font_face (fontName rest : jsstr) :
  64 ∉ fontName →
  forallb (fun c => negb (c =? 64)) rest = true →
  countOccurrences (lit "@font-face") (fontFace fontName ++ rest) = 1%nat.
Proof.
  intros Hfn Hrest.
  destruct (fontFace_shape fontName rest) as (tail & -> & Htail).
  specialize (Htail Hfn Hrest).
  assert (countOccurrences (lit "@font-face") (lit "font-face" ++ tail) = 0%nat) as H0.
  { apply count_no_at. rewrite forallb_app, Htail. reflexivity. }
  change (countOccurrences (lit "@font-face") (10 :: 64 :: lit "font-face" ++ tail))
    with (0 + (1 + countOccurrences (lit "@font-face") (lit "font-face" ++ tail)))%nat.
  rewrite H0. reflexivity.
Qed.

End Stylesheet.

(** C3. For a non-empty list of collected files (and a font name without an
    at sign, such as the script's ['icons']) the stylesheet text is the
    header written out below followed by the glyph rules.  The header is a
    line feed, the one [@font-face] block of the text, with
    [font-family: '<fontName>'], [src: url('<fontName>.woff2')
    format('woff2')], [font-weight: normal] and [font-style: normal], then
    the shared icon rule and an empty line.  The lines after the header
    are exactly the glyph rules, one per collected file and in collection
    order.  The rule of the file at index [i] is
    [.icon-<glyphName>:before { content: "\<hex>"; }], where [<hex>] is the
    glyph's code point (the code unit in its [unicode] metadata) written
    with hexadecimal digits. *)
Theorem C3_stylesheet_rules (fontName : jsstr) (svgFiles : list jsstr) :
  svgFiles ≠ [] → 64 ∉ fontName →
  let css := cssOutput fontName svgFiles in
  let header :=
    [10] ++
    lit "@font-face { " ++ [10] ++
    lit "  font-family: '" ++ fontName ++ lit "'; " ++ [10] ++
    lit "  src: url('" ++ fontName ++ lit ".woff2') format('woff2'); " ++ [10] ++
    lit "  font-weight: normal; " ++ [10] ++
    lit "  font-style: normal; " ++ [10] ++
    lit "} " ++ [10] ++
    lit "[class^=" ++ [34] ++ lit "icon-" ++ [34] ++ lit "], [class*="
      ++ [34] ++ lit " icon-" ++ [34] ++ lit "] { " ++ [10] ++
    lit "  font-family: '" ++ fontName ++ lit "' !important; " ++ [10] ++
    lit "  speak: none; " ++ [10] ++
    lit "  font-style: normal; " ++ [10] ++
    lit "  font-weight: normal; " ++ [10] ++
    lit "  font-variant: normal; " ++ [10] ++
    lit "  text-transform: none; " ++ [10] ++
    lit "  line-height: 1; " ++ [10] ++
    lit "  -webkit-font-smoothing: antialiased; " ++ [10] ++
    lit "  -moz-osx-font-smoothing: grayscale; " ++ [10] ++
    lit "}" ++ [10] ++ [10] in
  css = header ++ join [10] (cssContent svgFiles) ∧
  countOccurrences (lit "@font-face") css = 1%nat ∧
  take (length header) css = header ∧
  splitChar 10 [] (drop (length header) css) = cssContent svgFiles ∧
  length (cssContent svgFiles) = length svgFiles ∧
  (∀ (i : nat) (file : jsstr), svgFiles !! i = Some file →
     ∃ code : Z,
       glyphCodePoint i = Some code ∧
       meta_unicode (glyphMetadata i file) = [[code]] ∧
       Forall (fun c => isHexDigit c = true) (toString16 code) ∧
       hexValue (toString16 code) = code ∧
       cssContent svgFiles !! i =
         Some (lit ".icon-" ++ glyphName file ++ lit ":before { content: " ++ [34]
                 ++ lit "\" ++ toString16 code ++ [34] ++ lit "; }")).
Proof.
  intros Hne Hfn css header.
  assert (css = header ++ join nl (cssContent svgFiles)) as Hcss.
  { unfold css, header, cssOutput, fontFace, fontFaceBlock, baseRule, nl, dquote.
    by rewrite <- !app_assoc. }
  split; [exact Hcss|].
  split.
  { unfold css, cssOutput.
    apply count_font_face; [done|].
    change (nl ++ nl ++ join nl (cssContent svgFiles))
      with (10 :: 10 :: join nl (cssContent svgFiles)).
    cbn [forallb]. rewrite join_plain; [done|apply cssContent_plain]. }
  split; [rewrite Hcss; apply take_app_length|].
  split.
  { rewrite Hcss, drop_app_length.
    apply split_join_lines; [|apply cssContent_plain].
    unfold cssContent. destruct svgFiles; [done|]. by rewrite imap_cons. }
  split; [apply length_imap|].
  intros i file Hfile.
  exists ((0xe000 + Z.of_nat i) mod 65536).
  pose proof (glyphCodePoint_eq i) as Hcode.
  split; [done|].
  split; [by apply glyphMetadata_unicode|].
  split; [apply toString16_hex|].
  split; [apply toString16_value; apply Z.mod_pos_bound; lia|].
  unfold cssContent. rewrite list_lookup_imap, Hfile. cbn [fmap option_fmap option_map].
  unfold cssRule. by rewrite Hcode.
Qed.

Lemma C3_stylesheet_rules_witness :
  countOccurrences (lit "@font-face")
    (cssOutput (lit "icons") [lit "/w/svg/a.svg"; lit "/w/svg/b.svg"; lit "/w/svg/c-1.svg"])
  = 1%nat ∧
  length (cssContent [lit "/w/svg/a.svg"; lit "/w/svg/b.svg"; lit "/w/svg/c-1.svg"]) = 3%nat.
Proof.
  pose proof (C3_stylesheet_rules (lit "icons")
                [lit "/w/svg/a.svg"; lit "/w/svg/b.svg"; lit "/w/svg/c-1.svg"]
                ltac:(discriminate) ltac:(apply (bool_decide_unpack _); vm_compute; exact I))
    as (_ & H1 & _ & _ & H2 & _).
  split; [exact H1|exact H2].
Defined.

(** The round trip of the specification: three files [a.svg], [b.svg] and
    [c-1.svg] give the rules for [.icon-a], [.icon-b] and [.icon-c-1] with
    code points e000, e001 and e002. *)
Example cssContent_round_trip :
  cssContent (collectSVG (lit "/w/svg") [lit "a.svg"; lit "b.svg"; lit "c-1.svg"]) =
  [ lit ".icon-a:before { content: " ++ dquote ++ lit "\e000" ++ dquote ++ lit "; }";
    lit ".icon-b:before { content: " ++ dquote ++ lit "\e001" ++ dquote ++ lit "; }";
    lit ".icon-c-1:before { content: " ++ dquote ++ lit "\e002" ++ dquote ++ lit "; }" ].
Proof. vm_compute. reflexivity. Qed.

(** ** Glyph names *)

Section Basename.

(** One turn of the loop on a character that is not a slash, once a
    non-slash character has been seen. *)
Lemma suffixLoop_step (suffix : jsstr) (code : Z) (rest : jsstr) (i s e x f : Z) (m : bool) :
  isSlash code = false → f ≠ -1 →
  basenameSuffixLoop suffix (code :: rest) i (mkBasenameState s e m x f) =
  basenameSuffixLoop suffix rest (i - 1)
    (if 0 <=? x then
       if bool_decide (charCodeAt suffix (Z.to_nat x) = Some code)
       then mkBasenameState s (if x - 1 =? -1 then i else e) m (x - 1) f
       else mkBasenameState s f m (-1) f
     else mkBasenameState s e m x f).
Proof.
  intros Hc Hf. cbn [basenameSuffixLoop]. rewrite Hc.
  cbn [bs_firstNonSlashEnd]. apply Z.eqb_neq in Hf. rewrite Hf. reflexivity.
Qed.

(** The first turn of the loop on a path that does not end in a slash. *)
Lemma suffixLoop_first (suffix : jsstr) (code : Z) (rest : jsstr) (i x : Z) :
  isSlash code = false →
  basenameSuffixLoop suffix (code :: rest) i (mkBasenameState 0 (-1) true x (-1)) =
  basenameSuffixLoop suffix rest (i - 1)
    (if 0 <=? x then
       if bool_decide (charCodeAt suffix (Z.to_nat x) = Some code)
       then mkBasenameState 0 (if x - 1 =? -1 then i else -1) false (x - 1) (i + 1)
       else mkBasenameState 0 (i + 1) false (-1) (i + 1)
     else mkBasenameState 0 (-1) false x (i + 1)).
Proof. intros Hc. cbn [basenameSuffixLoop]. rewrite Hc. reflexivity. Qed.

Lemma suffixLoop_svg (rest : jsstr) (i : Z) :
  0 ≤ i →
  basenameSuffixLoop (lit ".svg") (103 :: 118 :: 115 :: 46 :: rest) i
    (mkBasenameState 0 (-1) true 3 (-1))
  = basenameSuffixLoop (lit ".svg") rest (i - 4)
      (mkBasenameState 0 (i - 3) false (-1) (i + 1)).
Proof.
  intros Hi.
  rewrite suffixLoop_first by done.
  change (if 0 <=? 3 then _ else _) with (mkBasenameState 0 (-1) false 2 (i + 1)).
  rewrite suffixLoop_step by (done || lia).
  change (if 0 <=? 2 then _ else _) with (mkBasenameState 0 (-1) false 1 (i + 1)).
  rewrite suffixLoop_step by (done || lia).
  change (if 0 <=? 1 then _ else _) with (mkBasenameState 0 (-1) false 0 (i + 1)).
  rewrite suffixLoop_step by (done || lia).
  change (if 0 <=? 0 then _ else _) with (mkBasenameState 0 (i - 1 - 1 - 1) false (-1) (i + 1)).
  f_equal; [lia|]. f_equal. lia.
Qed.

(** The characters of the stem change nothing once the suffix is matched. *)
Lemma suffixLoop_stem (suffix rstem rest : jsstr) (i s e f : Z) :
  Forall (fun c => isSlash c = false) rstem → f ≠ -1 →
  basenameSuffixLoop suffix (rstem ++ rest) i (mkBasenameState s e false (-1) f) =
  basenameSuffixLoop suffix rest (i - Z.of_nat (length rstem))
    (mkBasenameState s e false (-1) f).
Proof.
  intros H Hf. revert i.
  induction H as [|c rstem Hc _ IH]; intros i.
  - simpl. f_equal. lia.
  - rewrite <- app_comm_cons, suffixLoop_step by done.
    change (if 0 <=? -1 then _ else _) with (mkBasenameState s e false (-1) f).
    rewrite IH. f_equal. cbn [length]. lia.
Qed.

(** The loop ends at a slash, or at the start of the path. *)
Lemma suffixLoop_stop (suffix rpre : jsstr) (i e f : Z) :
  i = Z.of_nat (length rpre) - 1 →
  match rpre with [] => True | c :: _ => isSlash c = true end →
  basenameSuffixLoop suffix rpre i (mkBasenameState 0 e false (-1) f) =
  mkBasenameState (Z.of_nat (length rpre)) e false (-1) f.
Proof.
  intros Hi Hpre. destruct rpre as [|c rpre]; [done|].
  cbn [basenameSuffixLoop]. rewrite Hpre. cbn [bs_matchedSlash negb].
  cbn [bs_end bs_extIdx bs_firstNonSlashEnd]. f_equal. lia.
Qed.

(** A path made of a directory part [pre] (empty, or ending in a slash)
    and a file name [stem ++ ".svg"] has base name [stem]. *)
Lemma basename_svg (pre stem : jsstr) :
  match last pre with None => True | Some c => isSlash c = true end →
  stem ≠ [] → Forall (fun c => isSlash c = false) stem →
  basename (pre ++ stem ++ lit ".svg") (lit ".svg") = stem.
Proof.
  intros Hpre Hne Hstem.
  assert (0 < length stem)%nat as Hlen by (destruct stem; [done|simpl; lia]).
  unfold basename.
  rewrite !length_app. change (length (lit ".svg")) with 4%nat.
  rewrite bool_decide_true by done.
  rewrite (proj2 (Z.leb_le _ _)) by lia. cbn [andb].
  rewrite bool_decide_false.
  2:{ intros E. apply (f_equal length) in E. rewrite !length_app in E.
      change (length (lit ".svg")) with 4%nat in E. lia. }
  rewrite !reverse_app. change (reverse (lit ".svg")) with [103; 118; 115; 46].
  rewrite <- !app_assoc.
  change ([103; 118; 115; 46] ++ reverse stem ++ reverse pre)
    with (103 :: 118 :: 115 :: 46 :: reverse stem ++ reverse pre).
  change (Z.of_nat 4 - 1) with 3.
  rewrite suffixLoop_svg by lia.
  rewrite suffixLoop_stem; [|by apply Forall_reverse|lia].
  rewrite suffixLoop_stop.
  - cbn [bs_start bs_end bs_firstNonSlashEnd].
    rewrite !length_reverse.
    rewrite (proj2 (Z.eqb_neq _ _)) by lia.
    rewrite (proj2 (Z.eqb_neq _ _)) by lia.
    unfold slice. rewrite Nat2Z.id.
    rewrite drop_app_length.
    replace (Z.to_nat _ - length pre)%nat with (length stem) by lia.
    apply take_app_length.
  - rewrite !length_reverse. lia.
  - destruct pre as [|c pre] using rev_ind; [done|].
    rewrite last_snoc in Hpre. by rewrite reverse_snoc.
Qed.

Lemma glyphName_svg (pre stem : jsstr) :
  match last pre with None => True | Some c => isSlash c = true end →
  stem ≠ [] → Forall (fun c => isSlash c = false) stem →
  glyphName (pre ++ stem ++ lit ".svg") = sanitizeGlyphName stem.
Proof. intros. unfold glyphName. by rewrite basename_svg. Qed.

End Basename.

(** ** Joined paths *)

Section PathJoin.

Lemma splitChar_sep (sep : Z) (cur a b : jsstr) :
  splitChar sep cur (a ++ sep :: b) = splitChar sep cur a ++ splitChar sep [] b.
Proof.
  revert cur. induction a as [|c a IH]; intros cur; simpl.
  - by rewrite Z.eqb_refl.
  - destruct (c =? sep); [by rewrite IH|apply IH].
Qed.

Lemma splitChar_none (sep : Z) (cur s : jsstr) :
  Forall (fun c => (c =? sep) = false) s → splitChar sep cur s = [reverse cur ++ s].
Proof.
  intros H. revert cur. induction H as [|c s Hc _ IH]; intros cur; simpl.
  - by rewrite app_nil_r.
  - rewrite Hc, IH. by rewrite reverse_cons, <- app_assoc.
Qed.

Lemma normalizeSegments_last (allow : bool) (stack segs : list jsstr) (seg : jsstr) :
  plainSegment seg →
  ∃ kept, normalizeSegments allow stack (segs ++ [seg]) = kept ++ [seg].
Proof.
  intros (H1 & H2 & H3). revert stack.
  induction segs as [|s segs IH]; intros stack.
  - exists (reverse stack). cbn [normalizeSegments app].
    rewrite !bool_decide_false by done. cbn [orb]. by rewrite reverse_cons.
  - cbn [normalizeSegments app].
    destruct (bool_decide (s = []) || bool_decide (s = lit ".")); [apply IH|].
    destruct (bool_decide (s = lit "..")); [|apply IH].
    destruct stack as [|top stack]; [destruct allow; apply IH|].
    destruct (bool_decide (top = lit "..")); apply IH.
Qed.

Lemma join_last (sep : jsstr) (kept : list jsstr) (seg : jsstr) :
  join sep (kept ++ [seg]) =
  match kept with [] => seg | _ => join sep kept ++ sep ++ seg end.
Proof.
  induction kept as [|x kept IH]; [done|].
  destruct kept as [|y kept]; [done|].
  change (join sep ((x :: y :: kept) ++ [seg]))
    with (x ++ sep ++ join sep ((y :: kept) ++ [seg])).
  rewrite IH. change (join sep (x :: y :: kept)) with (x ++ sep ++ join sep (y :: kept)).
  by rewrite <- !app_assoc.
Qed.

Lemma normalize_file (d name : jsstr) :
  dirPart d → plainSegment name → Forall (fun c => isSlash c = false) name →
  ∃ pre, normalize (d ++ name) = pre ++ name ∧ dirPart pre.
Proof.
  intros Hd Hname Hns.
  assert (∃ segs, splitSlash (d ++ name) = segs ++ [name]) as [segs Hsegs].
  { unfold splitSlash. destruct d as [|c d] using rev_ind.
    - exists []. simpl. by rewrite splitChar_none.
    - unfold dirPart in Hd. rewrite last_snoc in Hd. apply Z.eqb_eq in Hd as ->.
      rewrite <- app_assoc. cbn [app]. rewrite splitChar_sep.
      eexists. f_equal. by rewrite splitChar_none. }
  destruct Hname as (Hne & Hname).
  assert (∃ c rest, d ++ name = c :: rest) as (c & rest & Hp).
  { destruct d; [destruct name; [done|]|]; eauto. }
  assert (∃ e, last (d ++ name) = Some e ∧ isSlash e = false) as (e & He & Hse).
  { destruct name as [|e name] using rev_ind; [done|].
    exists e. rewrite app_assoc, last_snoc. split; [done|].
    apply Forall_app in Hns as [_ Hns]. by inversion Hns. }
  unfold normalize. rewrite Hsegs, He, Hse. rewrite Hp.
  destruct (normalizeSegments_last (negb (isSlash c)) [] segs name) as [kept Hk];
    [by split|].
  rewrite Hk, join_last.
  assert (∃ pre, match kept with [] => name | _ => join (lit "/") kept ++ lit "/" ++ name end
                 = pre ++ name ∧ dirPart pre) as (pre & -> & Hpre).
  { destruct kept as [|k kept]; [by exists []|].
    exists (join (lit "/") (k :: kept) ++ lit "/"). split; [by rewrite <- app_assoc|].
    unfold dirPart. change (lit "/") with [47]. by rewrite last_snoc. }
  destruct (pre ++ name) eqn:E; [destruct pre, name; done|]. rewrite <- E.
  destruct (isSlash c).
  - exists (lit "/" ++ pre). split; [by rewrite <- app_assoc|].
    destruct pre as [|x pre] using rev_ind; [done|].
    unfold dirPart in *. rewrite app_assoc, last_snoc. by rewrite last_snoc in Hpre.
  - by exists pre.
Qed.

Lemma path_join_file (directory name : jsstr) :
  plainSegment name → Forall (fun c => isSlash c = false) name →
  ∃ pre, path_join [directory; name] = pre ++ name ∧ dirPart pre.
Proof.
  intros Hname Hns. pose proof Hname as (Hne & _).
  unfold path_join.
  destruct directory as [|c directory].
  - rewrite filter_cons_False by (intros H; by apply H).
    rewrite filter_cons_True by done. rewrite filter_nil.
    cbn [join]. by apply (normalize_file []).
  - rewrite !filter_cons_True by done. rewrite filter_nil.
    change (join (lit "/") [c :: directory; name])
      with ((c :: directory) ++ [47] ++ name).
    rewrite app_assoc.
    apply normalize_file; [|done..].
    unfold dirPart. by rewrite last_snoc.
Qed.

Lemma svg_name_plain (stem : jsstr) : stem ≠ [] → plainSegment (stem ++ lit ".svg").
Proof.
  intros Hne. split; [by destruct stem|].
  split; intros E; apply (f_equal length) in E; rewrite length_app in E;
    destruct stem; simpl in *; try done; lia.
Qed.

Lemma endsWith_svg (stem : jsstr) : endsWith (stem ++ lit ".svg") (lit ".svg") = true.
Proof.
  unfold endsWith. apply bool_decide_eq_true.
  apply drop_app_length'. rewrite length_app. simpl. lia.
Qed.

(** The collected path of [<stem>.svg] has base name [stem]. *)
Lemma glyphName_collected (directory stem : jsstr) :
  stem ≠ [] → Forall (fun c => isSlash c = false) stem →
  glyphName (path_join [directory; stem ++ lit ".svg"]) = sanitizeGlyphName stem.
Proof.
  intros Hne Hns.
  destruct (path_join_file directory (stem ++ lit ".svg")) as (pre & -> & Hpre).
  - by apply svg_name_plain.
  - apply Forall_app. split; [done|]. by repeat constructor.
  - by apply glyphName_svg.
Qed.

End PathJoin.

(** C9, the claim as stated fails: the collected file [a.svg.svg] gets the
    glyph name [a-svg], which ends in [-svg], and so does its selector; the
    file named just [.svg] gets the glyph name [-svg]. *)
Lemma C9_counterexample :
  let svgFiles := collectSVG (lit "/w/svg") [lit "a.svg.svg"; lit ".svg"] in
  svgFiles = [lit "/w/svg/a.svg.svg"; lit "/w/svg/.svg"] ∧
  map glyphName svgFiles = [lit "a-svg"; lit "-svg"] ∧
  Forall (fun name => endsWith name (lit "-svg") = true) (map glyphName svgFiles) ∧
  cssContent svgFiles =
    [ lit ".icon-a-svg:before { content: " ++ dquote ++ lit "\e000" ++ dquote ++ lit "; }";
      lit ".icon--svg:before { content: " ++ dquote ++ lit "\e001" ++ dquote ++ lit "; }" ].
Proof.
  cbv zeta. split; [by vm_compute|].
  split; [by vm_compute|].
  split; [|by vm_compute].
  repeat constructor.
Qed.

(** C9, amended.  For a directory entry [<stem>.svg] with a non-empty stem
    (entries contain no slash) the glyph name is the sanitized stem: the
    final [.svg] of the file name is removed before sanitization and adds
    nothing to the name, to the metadata or to the selector.  The name
    ends in [-svg] exactly when the sanitized stem does.  For instance
    [a.b.svg] gives [a-b]. *)
Theorem C9_glyph_name_from_stem (directory stem : jsstr) (index : nat) :
  stem ≠ [] → Forall (fun c => isSlash c = false) stem →
  let file := path_join [directory; stem ++ lit ".svg"] in
  collectSVG directory [stem ++ lit ".svg"] = [file] ∧
  glyphName file = sanitizeGlyphName stem ∧
  meta_name (glyphMetadata index file) = sanitizeGlyphName stem ∧
  cssRule index file =
    lit ".icon-" ++ sanitizeGlyphName stem ++ lit ":before { content: " ++ dquote
      ++ lit "\" ++ codeToString16 (glyphCodePoint index) ++ dquote ++ lit "; }" ∧
  endsWith (glyphName file) (lit "-svg") = endsWith (sanitizeGlyphName stem) (lit "-svg") ∧
  glyphName (path_join [lit "/w/svg"; lit "a.b.svg"]) = lit "a-b".
Proof.
  intros Hne Hns file.
  assert (glyphName file = sanitizeGlyphName stem) as Hname
    by (by apply glyphName_collected).
  split.
  { unfold collectSVG. rewrite filter_cons_True by apply endsWith_svg. done. }
  split; [done|].
  split; [done|].
  split; [unfold cssRule; by rewrite Hname|].
  split; [by rewrite Hname|].
  by vm_compute.
Qed.

Lemma C9_glyph_name_from_stem_witness :
  glyphName (path_join [lit "/home/u/svg"; lit "arrow left" ++ lit ".svg"]) =
  sanitizeGlyphName (lit "arrow left").
Proof.
  pose proof (C9_glyph_name_from_stem (lit "/home/u/svg") (lit "arrow left") 0
                ltac:(discriminate)
                ltac:(repeat constructor))
    as (_ & H & _).
  exact H.
Defined.

(** ** The Change Detector *)

(** Unfolds the sequencing of [Run] computations. *)
Ltac run_unfold :=
  cbv [mbind Run_bind run_bind mret Run_ret run_ret when
       fsRead fsWrite liftCall getFS console_log console_error process_exit throw
       tryCatch rl_close rl_question saveFile finishHandler errorHandler];
  cbn [negb w_fs w_stdout w_stderr w_rlClosed].

Section ChangeDetector.

Lemma sizedFiles_length (fs : FS) (svgFiles : list jsstr) entries :
  sizedFiles fs svgFiles = inr entries → length entries = length svgFiles.
Proof.
  revert entries. induction svgFiles as [|file files IH]; intros entries H.
  - by injection H as <-.
  - cbn [sizedFiles] in H.
    destruct (fs_statSize fs file); [done|].
    destruct (sizedFiles fs files) as [|rest]; [done|].
    injection H as <-. cbn [length]. by rewrite (IH rest).
Qed.

Lemma hashFiles_done (hash : bytes) (svgFiles : list jsstr) (w : World) entries :
  sizedFiles (w_fs w) svgFiles = inr entries →
  hashFiles hash svgFiles w =
  Done (hash ++ flat_map (fun e => utf8Encode (fst e) ++ utf8Encode (toString10 (snd e))) entries) w.
Proof.
  revert hash entries. induction svgFiles as [|file files IH]; intros hash entries H.
  - injection H as <-. cbn. by rewrite app_nil_r.
  - cbn [sizedFiles] in H.
    destruct (fs_statSize (w_fs w) file) as [|size] eqn:Hsize; [done|].
    destruct (sizedFiles (w_fs w) files) as [|rest] eqn:Hrest; [done|].
    injection H as <-.
    cbn [hashFiles]. unfold hashFile, fsRead, mbind, Run_bind, run_bind, mret, Run_ret, run_ret.
    rewrite Hsize, (IH _ rest) by done.
    unfold hash_update. cbn [flat_map fst snd]. by rewrite <- !app_assoc.
Qed.

(** The digest is the MD5 of the bytes [hashInput] lists. *)
Lemma getSVGFilesHash_done (svgFiles : list jsstr) (w : World) entries :
  sizedFiles (w_fs w) svgFiles = inr entries →
  getSVGFilesHash svgFiles w = Done (hash_digest_hex (hashInput entries)) w.
Proof.
  intros H. unfold getSVGFilesHash, mbind, Run_bind, run_bind, mret, Run_ret, run_ret.
  rewrite (hashFiles_done _ _ _ entries) by done.
  unfold hashInput, hash_update.
  by rewrite (sizedFiles_length _ _ _ H).
Qed.

End ChangeDetector.

(** C4, the claim as stated fails: the files [a.svg] (1 byte) and [2.svg]
    (3 bytes) and the files [a.svg] (12 bytes) and [.svg] (3 bytes) are two
    sequences that differ in a path and in a size, and both are hashed as
    the bytes of [2a.svg12.svg3]: the digests are the same. *)
Lemma C4_counterexample :
  sizedFiles Examples.fsA Examples.filesA = inr [(lit "a.svg", 1); (lit "2.svg", 3)] ∧
  sizedFiles Examples.fsB Examples.filesB = inr [(lit "a.svg", 12); (lit ".svg", 3)] ∧
  getSVGFilesHash Examples.filesA (Examples.world Examples.fsA) =
    Done (lit "506225a3671c24f86ac0341fbe8606ea") (Examples.world Examples.fsA) ∧
  getSVGFilesHash Examples.filesB (Examples.world Examples.fsB) =
    Done (lit "506225a3671c24f86ac0341fbe8606ea") (Examples.world Examples.fsB).
Proof. repeat split; by vm_compute. Qed.

(** C4, amended.  The Change Detector is deterministic: it reads the file
    system without changing it, and two runs over the same ordered
    [{path, size}] sequence give the same digest.  The digest is the MD5 of
    the count, the paths and the sizes written one after the other with
    nothing in between, so two sequences that give the same bytes also
    give the same digest. *)
Theorem C4_fingerprint_deterministic (files1 files2 : list jsstr) (w1 w2 : World)
    (entries1 entries2 : list (jsstr * Z)) :
  sizedFiles (w_fs w1) files1 = inr entries1 →
  sizedFiles (w_fs w2) files2 = inr entries2 →
  ∃ digest1 digest2 : jsstr,
    getSVGFilesHash files1 w1 = Done digest1 w1 ∧
    getSVGFilesHash files2 w2 = Done digest2 w2 ∧
    digest1 = toHex (MD5.digest (hashInput entries1)) ∧
    digest2 = toHex (MD5.digest (hashInput entries2)) ∧
    (entries1 = entries2 → digest1 = digest2) ∧
    (hashInput entries1 = hashInput entries2 → digest1 = digest2).
Proof.
  intros H1 H2.
  exists (hash_digest_hex (hashInput entries1)), (hash_digest_hex (hashInput entries2)).
  split; [by apply getSVGFilesHash_done|].
  split; [by apply getSVGFilesHash_done|].
  split; [done|]. split; [done|].
  split; [by intros ->|].
  unfold hash_digest_hex. by intros ->.
Qed.

Lemma C4_fingerprint_deterministic_witness :
  ∃ digest1 digest2 : jsstr,
    getSVGFilesHash Examples.filesA (Examples.world Examples.fsA) =
      Done digest1 (Examples.world Examples.fsA) ∧
    getSVGFilesHash Examples.filesB (Examples.world Examples.fsB) =
      Done digest2 (Examples.world Examples.fsB) ∧
    digest1 = digest2.
Proof.
  destruct (C4_fingerprint_deterministic Examples.filesA Examples.filesB
              (Examples.world Examples.fsA) (Examples.world Examples.fsB)
              [(lit "a.svg", 1); (lit "2.svg", 3)] [(lit "a.svg", 12); (lit ".svg", 3)]
              ltac:(vm_compute; reflexivity) ltac:(vm_compute; reflexivity))
    as (d1 & d2 & H1 & H2 & _ & _ & _ & H).
  exists d1, d2. split; [exact H1|]. split; [exact H2|].
  apply H. vm_compute. reflexivity.
Defined.

(** ** Runs of the script *)

Section Runs.

Context (env : Env).

Lemma collectSVG_none (directory : jsstr) (listing : list jsstr) :
  Forall (fun file => endsWith file (lit ".svg") = false) listing →
  collectSVG directory listing = [].
Proof.
  intros H. unfold collectSVG.
  induction H as [|file listing Hf _ IH]; [done|].
  rewrite filter_cons_False; [done|]. by rewrite Hf.
Qed.

(** The input directory is missing. *)
Lemma main_no_directory (fs : FS) (out err : list jsstr) (closed : bool) :
  fs !! path_join [env_cwd env; lit "svg"] = None →
  main env (mkWorld fs out err closed) =
  Exit 1 (mkWorld fs (out ++ [msgNoDirectory]) err closed).
Proof.
  intros H. unfold main, fs_existsSync. run_unfold.
  rewrite H.
  rewrite bool_decide_false by (by intros [? ?]).
  reflexivity.
Qed.

(** The input directory holds no [.svg] entry. *)
Lemma main_no_files (fs : FS) (out err : list jsstr) (closed : bool)
    (size : Z) (listing : list jsstr) :
  fs !! path_join [env_cwd env; lit "svg"] = Some (Dir size listing) →
  Forall (fun file => endsWith file (lit ".svg") = false) listing →
  main env (mkWorld fs out err closed) =
  Exit 1 (mkWorld fs (out ++ [msgNoFiles]) err closed).
Proof.
  intros H Hl. unfold main, readSVGFiles, fs_existsSync, fs_readdirSync. run_unfold.
  rewrite H.
  rewrite bool_decide_true by eauto. run_unfold. rewrite H. run_unfold.
  rewrite collectSVG_none by done.
  reflexivity.
Qed.

(** The output directory exists and the answer is not [s]. *)
Lemma main_declined (fs : FS) (out err : list jsstr) (closed : bool)
    (size : Z) (listing : list jsstr) (prior : node) (answer : jsstr) :
  fs !! path_join [env_cwd env; lit "svg"] = Some (Dir size listing) →
  collectSVG (path_join [env_cwd env; lit "svg"]) listing ≠ [] →
  fs !! path_join [env_cwd env; lit "icons"] = Some prior →
  env_answer env = Some answer →
  confirmed answer = false →
  main env (mkWorld fs out err closed) =
  Done tt (mkWorld fs ((out ++ [msgQuestion]) ++ [msgAborted]) err true).
Proof.
  intros H Hl Ho Ha Hc. unfold main, readSVGFiles, fs_existsSync, fs_readdirSync.
  run_unfold. rewrite H.
  rewrite bool_decide_true by eauto. run_unfold. rewrite H. run_unfold.
  rewrite bool_decide_false by (by destruct (collectSVG _ listing)).
  run_unfold. rewrite Ho. rewrite bool_decide_true by eauto.
  run_unfold. rewrite Ha, Hc. reflexivity.
Qed.

(** The ['finish'] handler never exits or lets an exception out, and it
    closes the readline interface. *)
Lemma finishHandler_done (svgChunks : list bytes) (svgFiles : list jsstr)
    (fontName outputDir : jsstr) (w : World) :
  ∃ w', finishHandler env svgChunks svgFiles fontName outputDir w = Done tt w' ∧
        w_rlClosed w' = true.
Proof.
  destruct w as [fs out err closed].
  unfold finishHandler, onFinish. run_unfold.
  destruct (env_svg2ttf env _) as [e|ttf]; [eauto|].
  destruct (env_ttf2woff2 env ttf) as [e|woff2]; [eauto|].
  repeat match goal with
         | |- context [fs_writeFileSync ?a ?b ?c] =>
             destruct (fs_writeFileSync a b c); [eauto|]; run_unfold
         end.
  eauto.
Qed.

(** The listeners never exit or let an exception out, whatever the events. *)
Lemma handleEvents_done (svgFiles : list jsstr) (fontName outputDir : jsstr)
    (events : list StreamEvent) (svgChunks : list bytes) (w : World) :
  ∃ w', handleEvents env svgFiles fontName outputDir svgChunks events w = Done tt w'.
Proof.
  revert svgChunks w.
  induction events as [|[chunk| |e] events IH]; intros svgChunks w; cbn [handleEvents].
  - by exists w.
  - apply IH.
  - destruct (finishHandler_done svgChunks svgFiles fontName outputDir w) as (w1 & E & _).
    cbv [mbind Run_bind run_bind]. rewrite E. apply IH.
  - destruct w as [fs out err closed]. run_unfold. apply IH.
Qed.

(** Unless the read stream of an icon fails, nothing in [generateFont]
    exits or lets an exception out: whatever the font stream and the
    converters do, it ends normally. *)
Lemma generateFont_done (svgFiles : list jsstr) (fontName outputDir : jsstr) (w : World) :
  (∀ e, env_fontStream env fontName (glyphs (w_fs w) svgFiles) ≠ StreamUncaught e) →
  ∃ w', generateFont env svgFiles fontName outputDir w = Done tt w'.
Proof.
  intros Hu. unfold generateFont. cbv [mbind Run_bind run_bind getFS].
  destruct (env_fontStream env fontName (glyphs (w_fs w) svgFiles)) as [chunks|e|events|e].
  - destruct (finishHandler_done (map chunkBuffer chunks) svgFiles fontName outputDir w)
      as (w' & E & _). eauto.
  - destruct w as [fs out err closed]. run_unfold. eauto.
  - apply handleEvents_done.
  - by destruct (Hu e).
Qed.

(** An ['error'] on the read stream of an icon is an uncaught exception. *)
Lemma generateFont_uncaught (svgFiles : list jsstr) (fontName outputDir : jsstr)
    (w : World) (e : error) :
  env_fontStream env fontName (glyphs (w_fs w) svgFiles) = StreamUncaught e →
  generateFont env svgFiles fontName outputDir w = Throw e w.
Proof.
  intros Hu. unfold generateFont. cbv [mbind Run_bind run_bind getFS]. by rewrite Hu.
Qed.

(** Once the output directory exists and there are icons to convert, the
    exit status is 0 whatever happens afterwards, unless the read stream
    of an icon fails. *)
Lemma exit_status_after_collect (fs : FS) (size : Z) (listing : list jsstr) (prior : node) :
  fs !! path_join [env_cwd env; lit "svg"] = Some (Dir size listing) →
  collectSVG (path_join [env_cwd env; lit "svg"]) listing ≠ [] →
  fs !! path_join [env_cwd env; lit "icons"] = Some prior →
  (∀ e, env_fontStream env (lit "icons")
          (glyphs fs (collectSVG (path_join [env_cwd env; lit "svg"]) listing))
        ≠ StreamUncaught e) →
  exitCode (runProcess env fs) = 0.
Proof.
  intros H Hl Ho Hu. unfold runProcess, main, readSVGFiles, fs_existsSync, fs_readdirSync.
  run_unfold. rewrite H.
  rewrite bool_decide_true by eauto. run_unfold. rewrite H. run_unfold.
  rewrite bool_decide_false by (by destruct (collectSVG _ listing)).
  run_unfold. rewrite Ho. rewrite bool_decide_true by eauto.
  run_unfold.
  destruct (env_answer env) as [answer|]; [|done].
  destruct (confirmed answer); [|done].
  match goal with
  | |- context [generateFont env ?files ?name ?dir ?w] =>
      destruct (generateFont_done files name dir w Hu) as (w' & ->)
  end.
  done.
Qed.

(** With the output directory in place, accepted, an ['error'] on the read
    stream of an icon ends the process with status 1. *)
Lemma exit_status_uncaught (fs : FS) (size : Z) (listing : list jsstr) (prior : node)
    (answer : jsstr) (e : error) :
  fs !! path_join [env_cwd env; lit "svg"] = Some (Dir size listing) →
  collectSVG (path_join [env_cwd env; lit "svg"]) listing ≠ [] →
  fs !! path_join [env_cwd env; lit "icons"] = Some prior →
  env_answer env = Some answer →
  confirmed answer = true →
  env_fontStream env (lit "icons")
    (glyphs fs (collectSVG (path_join [env_cwd env; lit "svg"]) listing))
  = StreamUncaught e →
  exitCode (runProcess env fs) = 1.
Proof.
  intros H Hl Ho Ha Hc Hu. unfold runProcess, main, readSVGFiles, fs_existsSync, fs_readdirSync.
  run_unfold. rewrite H.
  rewrite bool_decide_true by eauto. run_unfold. rewrite H. run_unfold.
  rewrite bool_decide_false by (by destruct (collectSVG _ listing)).
  run_unfold. rewrite Ho. rewrite bool_decide_true by eauto.
  run_unfold. rewrite Ha, Hc.
  match goal with
  | |- context [generateFont env ?files ?name ?dir ?w] =>
      rewrite (generateFont_uncaught files name dir w e Hu)
  end.
  done.
Qed.

End Runs.

Section RunOutcomes.

Context (env : Env) (fs : FS).

Lemma collectSVG_some (directory : jsstr) (listing : list jsstr) :
  Exists (fun file => endsWith file (lit ".svg") = true) listing →
  collectSVG directory listing ≠ [].
Proof.
  intros H. unfold collectSVG.
  induction H as [file listing Hf|file listing _ IH].
  - by rewrite filter_cons_True.
  - destruct (decide (endsWith file (lit ".svg") = true)).
    + by rewrite filter_cons_True.
    + by rewrite filter_cons_False.
Qed.

Lemma run_no_directory :
  fs !! path_join [env_cwd env; lit "svg"] = None →
  runProcess env fs = mkOutcome 1 fs [msgNoDirectory] [].
Proof. intros H. unfold runProcess. by rewrite main_no_directory. Qed.

Lemma run_no_files (size : Z) (listing : list jsstr) :
  fs !! path_join [env_cwd env; lit "svg"] = Some (Dir size listing) →
  Forall (fun file => endsWith file (lit ".svg") = false) listing →
  runProcess env fs = mkOutcome 1 fs [msgNoFiles] [].
Proof. intros H Hl. unfold runProcess. by rewrite (main_no_files _ _ _ _ _ size listing). Qed.

End RunOutcomes.

(** A run in which everything succeeds writes both output files and ends
    with status 0. *)
Example run_success :
  let o := runProcess Examples.envOk Examples.fsIcons in
  exitCode o = 0 ∧
  stdout o = [lit "Font generation complete! CSS and WOFF2 files have been generated."] ∧
  stderr o = [] ∧
  finalFS o !! lit "/w/icons/icons.woff2" =
    Some (File (1 :: 0 :: utf8Encode (lit "<svg><font/></svg>"))) ∧
  finalFS o !! lit "/w/icons/icons.css" =
    Some (File (utf8Encode (cssOutput (lit "icons") [lit "/w/svg/a.svg"]))).
Proof. cbv zeta. repeat split; by vm_compute. Qed.

(** A failure of the second write leaves the font file written, without
    its stylesheet, and the exit status is 0 again. *)
Example run_partial_output :
  let o := runProcess Examples.envAccept Examples.fsCssIsDir in
  exitCode o = 0 ∧
  stderr o = [lit "Error during font generation: EISDIR"] ∧
  finalFS o !! lit "/w/icons/icons.woff2" =
    Some (File (1 :: 0 :: utf8Encode (lit "<svg><font/></svg>"))) ∧
  finalFS o !! lit "/w/icons/icons.css" = Some (Dir 4096 []).
Proof. cbv zeta. repeat split; by vm_compute. Qed.

(** C5, the code at the failing inputs: when [svg2ttf] throws, and when the
    font stream reports an error, the error is printed, no output file is
    written, and the process still ends with exit status 0. *)
Theorem C5_pipeline_error_exit_status :
  let transcode := runProcess Examples.envTranscodeError Examples.fsIcons in
  let assembly := runProcess Examples.envAssemblyError Examples.fsIcons in
  exitCode transcode = 0 ∧
  stderr transcode = [lit "Error during font generation: Error: svg2ttf failed"] ∧
  finalFS transcode !! lit "/w/icons/icons.woff2" = None ∧
  finalFS transcode !! lit "/w/icons/icons.css" = None ∧
  exitCode assembly = 0 ∧
  stderr assembly = [lit "Error in SVGIcons2SVGFontStream: Error: bad glyph"] ∧
  finalFS assembly !! lit "/w/icons/icons.woff2" = None ∧
  finalFS assembly !! lit "/w/icons/icons.css" = None.
Proof. cbv zeta. repeat split; by vm_compute. Qed.

(** C6. When the input directory exists and none of its entries ends in
    [.svg], the run prints the no-files message and exits with status 1,
    and the file system is left exactly as it was: no directory is created
    and no file is written. *)
Theorem C6_no_input_files (env : Env) (fs : FS) (size : Z) (listing : list jsstr) :
  fs !! path_join [env_cwd env; lit "svg"] = Some (Dir size listing) →
  Forall (fun file => endsWith file (lit ".svg") = false) listing →
  runProcess env fs = mkOutcome 1 fs [msgNoFiles] [].
Proof. apply run_no_files. Qed.

Lemma C6_no_input_files_witness :
  runProcess Examples.envOk
    (<[lit "/w/svg" := Dir 4096 [lit "notes.txt"; lit "svg"]]> Examples.fsNoSvg)
  = mkOutcome 1 (<[lit "/w/svg" := Dir 4096 [lit "notes.txt"; lit "svg"]]> Examples.fsNoSvg)
      [msgNoFiles] [].
Proof.
  apply (C6_no_input_files Examples.envOk _ 4096 [lit "notes.txt"; lit "svg"]).
  - vm_compute. reflexivity.
  - repeat constructor.
Defined.

(** C7, the claim as stated fails: a run without the input directory and a
    run with an empty input directory both end with exit status 1. *)
Lemma C7_counterexample :
  runProcess Examples.envOk Examples.fsNoSvg =
    mkOutcome 1 Examples.fsNoSvg [msgNoDirectory] [] ∧
  runProcess Examples.envOk Examples.fsEmptySvg =
    mkOutcome 1 Examples.fsEmptySvg [msgNoFiles] [] ∧
  exitCode (runProcess Examples.envOk Examples.fsNoSvg) =
  exitCode (runProcess Examples.envOk Examples.fsEmptySvg).
Proof. repeat split; by vm_compute. Qed.

(** C7, amended.  A missing input directory and an input directory without
    icons both end the run with exit status 1 and an unchanged file system;
    the two outcomes differ only in the message printed. *)
Theorem C7_exit_status_shared (env : Env) (fs : FS) (size : Z) (listing : list jsstr) :
  (fs !! path_join [env_cwd env; lit "svg"] = None →
   runProcess env fs = mkOutcome 1 fs [msgNoDirectory] []) ∧
  (fs !! path_join [env_cwd env; lit "svg"] = Some (Dir size listing) →
   Forall (fun file => endsWith file (lit ".svg") = false) listing →
   runProcess env fs = mkOutcome 1 fs [msgNoFiles] []) ∧
  msgNoDirectory ≠ msgNoFiles.
Proof.
  split; [apply run_no_directory|].
  split; [apply run_no_files|].
  by vm_compute.
Qed.

Lemma C7_exit_status_shared_witness :
  runProcess Examples.envOk Examples.fsNoSvg = mkOutcome 1 Examples.fsNoSvg [msgNoDirectory] [] ∧
  runProcess Examples.envOk Examples.fsEmptySvg = mkOutcome 1 Examples.fsEmptySvg [msgNoFiles] [].
Proof.
  split.
  - apply (C7_exit_status_shared Examples.envOk Examples.fsNoSvg 0 []).
    vm_compute. reflexivity.
  - apply (C7_exit_status_shared Examples.envOk Examples.fsEmptySvg 4096 []).
    + vm_compute. reflexivity.
    + constructor.
Defined.

(** C8. When there are icons to convert, the output directory already
    exists and the answer to the overwrite question is anything but [s],
    the run prints the question and the cancellation message and ends
    without touching the file system: no output file is written or
    overwritten. *)
Theorem C8_declined_overwrite (env : Env) (fs : FS) (size : Z) (listing : list jsstr)
    (prior : node) (answer : jsstr) :
  fs !! path_join [env_cwd env; lit "svg"] = Some (Dir size listing) →
  Exists (fun file => endsWith file (lit ".svg") = true) listing →
  fs !! path_join [env_cwd env; lit "icons"] = Some prior →
  env_answer env = Some answer →
  confirmed answer = false →
  runProcess env fs = mkOutcome 0 fs [msgQuestion; msgAborted] [].
Proof.
  intros H Hl Ho Ha Hc. unfold runProcess.
  rewrite (main_declined env fs [] [] false size listing prior answer);
    [done..|by apply collectSVG_some|done|done|done].
Qed.

Lemma C8_declined_overwrite_witness :
  runProcess Examples.envDecline Examples.fsPrior =
  mkOutcome 0 Examples.fsPrior [msgQuestion; msgAborted] [].
Proof.
  apply (C8_declined_overwrite Examples.envDecline Examples.fsPrior 4096 [lit "a.svg"]
           (Dir 4096 [lit "icons.css"]) (lit "n")).
  - vm_compute. reflexivity.
  - constructor. vm_compute. reflexivity.
  - vm_compute. reflexivity.
  - reflexivity.
  - vm_compute. reflexivity.
Defined.

(** * Further properties *)

(** ** Normalized absolute paths *)

Section AbsolutePaths.

Lemma splitChar_join (sep : Z) (segs : list jsstr) :
  segs ≠ [] →
  Forall (Forall (fun c => (c =? sep) = false)) segs →
  splitChar sep [] (join [sep] segs) = segs.
Proof.
  intros Hne H. induction H as [|seg segs Hs _ IH]; [done|].
  destruct segs as [|seg' segs].
  - cbn [join]. by rewrite splitChar_none.
  - change (join [sep] (seg :: seg' :: segs)) with (seg ++ sep :: join [sep] (seg' :: segs)).
    rewrite splitChar_sep, splitChar_none, IH by done. done.
Qed.

Lemma normalizeSegments_plain (allow : bool) (stack segs : list jsstr) :
  Forall plainSegment segs →
  normalizeSegments allow stack segs = reverse stack ++ segs.
Proof.
  intros H. revert stack. induction H as [|seg segs (H1 & H2 & H3) _ IH]; intros stack.
  - cbn [normalizeSegments]. by rewrite app_nil_r.
  - cbn [normalizeSegments]. rewrite !bool_decide_false by done. cbn [orb].
    rewrite IH, reverse_cons, <- app_assoc. done.
Qed.

Lemma normalizeSegments_empty (allow : bool) (stack segs : list jsstr) :
  normalizeSegments allow stack ([] :: segs) = normalizeSegments allow stack segs.
Proof. done. Qed.

Lemma plainName_segments (segs : list jsstr) :
  Forall plainName segs →
  Forall plainSegment segs ∧ Forall (Forall (fun c => (c =? 47) = false)) segs.
Proof.
  intros H. split; (eapply Forall_impl; [exact H|]); by intros seg [? ?].
Qed.

Lemma join_nonempty (sep : jsstr) (seg : jsstr) (segs : list jsstr) :
  seg ≠ [] → join sep (seg :: segs) ≠ [].
Proof. intros H. destruct segs; cbn [join]; by destruct seg. Qed.

Lemma last_join_plain (segs : list jsstr) :
  segs ≠ [] → Forall plainName segs →
  ∃ e, last (join (lit "/") segs) = Some e ∧ isSlash e = false.
Proof.
  intros Hne H.
  destruct segs as [|seg segs _] using rev_ind; [done|].
  apply Forall_app in H as [_ H]. apply Forall_inv in H as [[Hs _] Hns].
  destruct seg as [|e seg _] using rev_ind; [done|].
  exists e. split; [|apply Forall_app in Hns as [_ Hns]; by apply Forall_inv in Hns].
  rewrite join_last. destruct segs; [apply last_snoc|].
  rewrite !app_assoc. apply last_snoc.
Qed.

Lemma normalize_absPath (segs : list jsstr) :
  Forall plainName segs → normalize (absPath segs) = absPath segs.
Proof.
  intros H. destruct (plainName_segments segs H) as [Hp Hns].
  destruct segs as [|seg segs]; [by vm_compute|].
  destruct (last_join_plain (seg :: segs)) as (e & He & Hse); [done..|].
  assert (join (lit "/") (seg :: segs) ≠ []) as Hj.
  { apply join_nonempty. apply Forall_inv in Hp. by destruct Hp. }
  unfold absPath, normalize. change (lit "/") with [47] in *. cbn [app].
  assert (last (47 :: join [47] (seg :: segs)) = Some e) as ->.
  { destruct (join [47] (seg :: segs)) eqn:E; [done|]. by rewrite last_cons, He. }
  rewrite Hse. unfold splitSlash. cbn [splitChar]. rewrite Z.eqb_refl.
  change (reverse []) with (@nil Z).
  rewrite splitChar_join by done.
  change (isSlash 47) with true. cbn [negb].
  rewrite normalizeSegments_empty, normalizeSegments_plain by done.
  change (reverse [] ++ seg :: segs) with (seg :: segs).
  change (lit "/") with [47].
  destruct (join [47] (seg :: segs)) eqn:E; done.
Qed.

Lemma absPath_snoc (segs : list jsstr) (name : jsstr) :
  absPath (segs ++ [name]) =
  match segs with [] => 47 :: name | _ => absPath segs ++ 47 :: name end.
Proof.
  unfold absPath. rewrite join_last. destruct segs; [done|].
  change (lit "/") with [47]. by rewrite <- !app_assoc.
Qed.

(** Joining a normalized absolute directory and a plain name appends the
    name as a new last segment. *)
Lemma path_join_abs (segs : list jsstr) (name : jsstr) :
  Forall plainName segs → plainName name →
  path_join [absPath segs; name] = absPath (segs ++ [name]).
Proof.
  intros H Hname. pose proof Hname as [[Hne _] Hns].
  unfold path_join.
  rewrite filter_cons_True by done. rewrite filter_cons_True by done.
  rewrite filter_nil.
  assert (Forall plainName (segs ++ [name])) as H' by (apply Forall_app; eauto).
  destruct segs as [|seg segs].
  - change (join (lit "/") [absPath []; name]) with (47 :: 47 :: name).
    destruct (plainName_segments [name]) as [Hp Hns']; [done|].
    assert (∃ e, last name = Some e ∧ isSlash e = false) as (e & He & Hse).
    { destruct name as [|e name _] using rev_ind; [done|].
      exists e. rewrite last_snoc. split; [done|].
      apply Forall_app in Hns as [_ Hns]. by apply Forall_inv in Hns. }
    unfold normalize.
    assert (last (47 :: 47 :: name) = Some e) as ->.
    { destruct name; [done|]. by rewrite last_cons, last_cons, He. }
    rewrite Hse. unfold splitSlash. cbn [splitChar]. rewrite Z.eqb_refl.
    change (reverse []) with (@nil Z).
    rewrite splitChar_none by (eapply Forall_impl; [exact Hns|done]).
    change (isSlash 47) with true. cbn [negb].
    change (reverse [] ++ name) with name.
    rewrite !normalizeSegments_empty, normalizeSegments_plain by done.
    change (reverse [] ++ [name]) with [name].
    unfold absPath. cbn [join app]. change (lit "/") with [47].
    destruct name; done.
  - rewrite <- (normalize_absPath ((seg :: segs) ++ [name])) by done. f_equal.
    rewrite absPath_snoc. unfold absPath. change (lit "/") with [47].
    cbn [join]. by rewrite <- !app_assoc.
Qed.

Lemma path_join_single (segs : list jsstr) :
  Forall plainName segs → path_join [absPath segs] = absPath segs.
Proof.
  intros H. unfold path_join. rewrite filter_cons_True by done.
  rewrite filter_nil. cbn [join]. by apply normalize_absPath.
Qed.

Lemma splitLastSlash_plain (name : jsstr) :
  Forall (fun c => isSlash c = false) name → splitLastSlash name = None.
Proof.
  induction 1 as [|c name Hc _ IH]; [done|].
  cbn [splitLastSlash]. by rewrite IH, Hc.
Qed.

Lemma splitLastSlash_app (d name : jsstr) :
  Forall (fun c => isSlash c = false) name →
  splitLastSlash (d ++ 47 :: name) = Some (d, name).
Proof.
  intros H. induction d as [|c d IH].
  - cbn [app splitLastSlash]. by rewrite splitLastSlash_plain.
  - cbn [app splitLastSlash]. by rewrite IH.
Qed.

Lemma parentOf_abs (segs : list jsstr) (name : jsstr) :
  plainName name →
  parentOf (absPath (segs ++ [name])) = absPath segs ∧
  leafOf (absPath (segs ++ [name])) = name.
Proof.
  intros [_ Hns]. rewrite absPath_snoc. unfold parentOf, leafOf.
  destruct segs as [|seg segs].
  - change (47 :: name) with ([] ++ 47 :: name).
    rewrite (splitLastSlash_app [] name) by done. done.
  - rewrite splitLastSlash_app by done. split; [|done].
    unfold absPath. done.
Qed.

Lemma absPath_inj_last (segs : list jsstr) (a b : jsstr) :
  absPath (segs ++ [a]) = absPath (segs ++ [b]) → a = b.
Proof.
  rewrite !absPath_snoc. destruct segs; [by intros [= ->]|].
  intros H. apply app_inv_head in H. by injection H.
Qed.

Lemma absPath_snoc_ne (segs : list jsstr) (name : jsstr) :
  name ≠ [] → absPath (segs ++ [name]) ≠ absPath segs.
Proof.
  intros Hne. rewrite absPath_snoc. intros H. apply (f_equal length) in H.
  destruct segs as [|seg segs].
  - destruct name; [done|]. cbn in H. lia.
  - rewrite length_app in H. cbn [length] in H. lia.
Qed.

End AbsolutePaths.

(** ** More on the Glyph Namer *)

(** X1. The names that sanitization leaves unchanged are exactly the names
    made of letters, digits and hyphens. *)
Theorem sanitize_fixed_iff (name : jsstr) :
  sanitizeGlyphName name = name ↔ Forall (fun c => isNameChar c = true) name.
Proof.
  split; [|apply sanitize_fixed].
  intros H. rewrite <- H. apply sanitize_chars.
Qed.

Lemma sanitize_fixed_iff_witness :
  sanitizeGlyphName (lit "arrow-Left-2") = lit "arrow-Left-2".
Proof.
  apply (proj2 (sanitize_fixed_iff (lit "arrow-Left-2"))).
  repeat constructor.
Defined.

(** X2. Two icons get the same code point exactly when their positions
    differ by a multiple of 0x10000: the assignment is injective on any
    0x10000 consecutive positions and repeats after that. *)
Theorem glyphCodePoint_eq_iff (i j : nat) :
  glyphCodePoint i = glyphCodePoint j ↔
  Z.of_nat i mod 65536 = Z.of_nat j mod 65536.
Proof.
  rewrite !glyphCodePoint_eq. split.
  - intros [= H]. revert H. Z.div_mod_to_equations. lia.
  - intros H. f_equal. revert H. Z.div_mod_to_equations. lia.
Qed.

Lemma glyphCodePoint_eq_iff_witness :
  glyphCodePoint 3 = glyphCodePoint (Z.to_nat 65539) ∧ glyphCodePoint 3 ≠ glyphCodePoint 4.
Proof.
  split.
  - apply (proj2 (glyphCodePoint_eq_iff 3 (Z.to_nat 65539))). vm_compute. reflexivity.
  - intros H. apply (proj1 (glyphCodePoint_eq_iff 3 4)) in H. vm_compute in H. discriminate H.
Defined.

(** ** The overwrite question *)

Section Confirmation.

Lemma toLowerCase_s (t : jsstr) :
  toLowerCase t = lit "s" ↔ t = [115] ∨ t = [83].
Proof.
  split.
  - destruct t as [|c [|d t]]; try done.
    unfold toLowerCase. cbn [map]. intros [= H]. revert H.
    destruct ((65 <=? c) && (c <=? 90)) eqn:E; intros H.
    + right. f_equal. lia.
    + left. by f_equal.
  - by intros [-> | ->].
Qed.

End Confirmation.

(** X3. The overwrite is confirmed exactly when the answer, with white
    space around it removed, is the single letter [s] or [S]; any other
    answer, the empty one included, declines. *)
Theorem confirmed_iff (answer : jsstr) :
  confirmed answer = true ↔ trim answer = [115] ∨ trim answer = [83].
Proof.
  unfold confirmed. rewrite bool_decide_eq_true. apply toLowerCase_s.
Qed.

Lemma confirmed_iff_witness :
  confirmed (lit "  S" ++ [13; 10]) = true ∧ confirmed (lit "si") = false ∧ confirmed [] = false.
Proof.
  split; [|split].
  - apply (proj2 (confirmed_iff (lit "  S" ++ [13; 10]))). right. vm_compute. reflexivity.
  - apply not_true_is_false. intros H.
    apply (proj1 (confirmed_iff (lit "si"))) in H. vm_compute in H.
    destruct H as [H|H]; discriminate H.
  - apply not_true_is_false. intros H.
    apply (proj1 (confirmed_iff [])) in H. vm_compute in H.
    destruct H as [H|H]; discriminate H.
Defined.

(** ** More on the Change Detector *)

Section Digest.

Lemma leBytes_length (n : nat) (x : Z) : length (MD5.leBytes n x) = n.
Proof. revert x. induction n as [|n IH]; intros x; [done|]. cbn. by rewrite IH. Qed.

Lemma leBytes_range (n : nat) (x : Z) :
  Forall (fun b => 0 ≤ b < 256) (MD5.leBytes n x).
Proof.
  revert x. induction n as [|n IH]; intros x; [constructor|].
  cbn [MD5.leBytes]. constructor; [apply Z.mod_pos_bound; lia|apply IH].
Qed.

Lemma digest_bytes (msg : bytes) :
  length (MD5.digest msg) = 16%nat ∧ Forall (fun b => 0 ≤ b < 256) (MD5.digest msg).
Proof.
  unfold MD5.digest.
  destruct (MD5.blocks _ MD5.init (MD5.pad msg)) as [[[A B] C] D].
  split.
  - rewrite !length_app, !leBytes_length. done.
  - rewrite !Forall_app. repeat split; apply leBytes_range.
Qed.

Lemma toHex_length (bs : bytes) : length (toHex bs) = (2 * length bs)%nat.
Proof.
  unfold toHex. induction bs as [|b bs IH]; [done|].
  cbn [flat_map app length]. rewrite IH. lia.
Qed.

Lemma toHex_digits (bs : bytes) :
  Forall (fun b => 0 ≤ b < 256) bs → Forall (fun c => isHexDigit c = true) (toHex bs).
Proof.
  unfold toHex. induction 1 as [|b bs Hb _ IH]; [constructor|].
  cbn [flat_map app].
  constructor; [apply digitChar_hex|constructor; [apply digitChar_hex|done]].
  - split; [apply Z.div_pos; lia|apply Z.div_lt_upper_bound; lia].
  - apply Z.mod_pos_bound. lia.
Qed.

Lemma hash_digest_hex_format (h : bytes) :
  length (hash_digest_hex h) = 32%nat ∧
  Forall (fun c => isHexDigit c = true) (hash_digest_hex h).
Proof.
  unfold hash_digest_hex. destruct (digest_bytes h) as [Hl Hr].
  split; [by rewrite toHex_length, Hl|by apply toHex_digits].
Qed.

(** Hashing reads the file system and leaves the world as it is. *)
Lemma hashFiles_world (hash : bytes) (svgFiles : list jsstr) (w : World) :
  (∃ hash', hashFiles hash svgFiles w = Done hash' w) ∨
  (∃ e, hashFiles hash svgFiles w = Throw e w).
Proof.
  revert hash. induction svgFiles as [|file files IH]; intros hash; [left; by eexists|].
  cbn [hashFiles]. unfold hashFile, fsRead, mbind, Run_bind, run_bind, mret, Run_ret, run_ret.
  unfold fs_statSize.
  destruct (w_fs w !! file) as [[size entries|content]|]; [apply IH..|right; by eexists].
Qed.

(** Hashing stops at the first file that does not exist, with the error
    of [statSync] on it. *)
Lemma hashFiles_missing (hash : bytes) (pre post : list jsstr) (file : jsstr) (w : World) :
  Forall (fun f => is_Some (w_fs w !! f)) pre →
  w_fs w !! file = None →
  hashFiles hash (pre ++ file :: post) w = Throw (missingError (w_fs w) file) w.
Proof.
  intros Hpre Hf. revert hash.
  induction Hpre as [|f pre [n Hn] _ IH]; intros hash.
  - cbn [app hashFiles]. unfold hashFile, fsRead, mbind, Run_bind, run_bind, fs_statSize.
    by rewrite Hf.
  - cbn [app hashFiles].
    unfold hashFile, fsRead, mbind, Run_bind, run_bind, mret, Run_ret, run_ret, fs_statSize.
    rewrite Hn. destruct n; apply IH.
Qed.

(** The error on a missing entry of an existing parent. *)
Lemma missingError_child (fs : FS) (segs : list jsstr) (name : jsstr) (parent : node) :
  plainName name →
  fs !! absPath segs = Some parent →
  missingError fs (absPath (segs ++ [name])) =
  match parent with Dir _ _ => lit "ENOENT" | File _ => lit "ENOTDIR" end.
Proof.
  intros Hn Hp. unfold missingError.
  destruct (parentOf_abs segs name Hn) as [Hpar _].
  unfold absPath at 1. change (lit "/") with [47]. cbn [app length hasFileAncestor].
  fold (lit "/"). change (lit "/" ++ join (lit "/") (segs ++ [name]))
    with (absPath (segs ++ [name])).
  rewrite Hpar, Hp. by destruct parent.
Qed.

End Digest.

(** X4. Whenever [getSVGFilesHash] returns, its result is a string of 32
    lower-case hexadecimal digits, and the world is as it was before. *)
Theorem getSVGFilesHash_format (svgFiles : list jsstr) (w w' : World) (digest : jsstr) :
  getSVGFilesHash svgFiles w = Done digest w' →
  w' = w ∧ length digest = 32%nat ∧ Forall (fun c => isHexDigit c = true) digest.
Proof.
  unfold getSVGFilesHash, mbind, Run_bind, run_bind, mret, Run_ret, run_ret.
  destruct (hashFiles_world (hash_update [] (toString10 (Z.of_nat (length svgFiles))))
              svgFiles w) as [[hash' ->] | [e ->]]; [|done].
  intros [= <- <-]. split; [done|]. apply hash_digest_hex_format.
Qed.

Lemma getSVGFilesHash_format_witness :
  Examples.world Examples.fsA = Examples.world Examples.fsA ∧
  length (lit "506225a3671c24f86ac0341fbe8606ea") = 32%nat ∧
  Forall (fun c => isHexDigit c = true) (lit "506225a3671c24f86ac0341fbe8606ea").
Proof.
  apply (getSVGFilesHash_format Examples.filesA (Examples.world Examples.fsA)).
  vm_compute. reflexivity.
Defined.

(** X5. When the files before [/<segs>/<name>] in the list exist and that
    one does not, [statSync] throws on it and [getSVGFilesHash] ends with
    that exception instead of a digest, the world being as it was before:
    [ENOENT] when the parent [/<segs>] is a directory, [ENOTDIR] when it is
    a regular file. *)
Theorem getSVGFilesHash_missing (pre post segs : list jsstr) (name : jsstr) (parent : node)
    (w : World) :
  Forall plainName segs → plainName name →
  Forall (fun f => is_Some (w_fs w !! f)) pre →
  w_fs w !! absPath (segs ++ [name]) = None →
  w_fs w !! absPath segs = Some parent →
  getSVGFilesHash (pre ++ absPath (segs ++ [name]) :: post) w =
  Throw (match parent with Dir _ _ => lit "ENOENT" | File _ => lit "ENOTDIR" end) w.
Proof.
  intros _ Hn Hpre Hf Hp. unfold getSVGFilesHash, mbind, Run_bind, run_bind.
  rewrite hashFiles_missing by done.
  by rewrite (missingError_child _ _ _ parent).
Qed.

Lemma getSVGFilesHash_missing_witness :
  getSVGFilesHash [lit "/w/svg/a.svg"; lit "/w/svg/a.svg/x"; lit "/w/svg/gone.svg"]
    (Examples.world Examples.fsIcons) =
  Throw (lit "ENOTDIR") (Examples.world Examples.fsIcons).
Proof.
  apply (getSVGFilesHash_missing [lit "/w/svg/a.svg"] [lit "/w/svg/gone.svg"]
           [lit "w"; lit "svg"; lit "a.svg"] (lit "x") (File (utf8Encode (lit "<svg/>")))
           (Examples.world Examples.fsIcons)).
  - repeat constructor; discriminate.
  - repeat constructor; discriminate.
  - repeat constructor. vm_compute. eauto.
  - vm_compute. reflexivity.
  - vm_compute. reflexivity.
Defined.

(** ** Writing files *)

Section Writes.

Lemma addEntry_lookup_ne (fs : FS) (d leaf q : jsstr) :
  q ≠ d → addEntry fs d leaf !! q = fs !! q.
Proof.
  intros Hq. unfold addEntry.
  destruct (fs !! d) as [[size entries|content]|]; [|done..].
  destruct (bool_decide (leaf ∈ entries)); [done|].
  by rewrite lookup_insert_ne.
Qed.

Lemma addEntry_lookup (fs : FS) (d leaf : jsstr) (size : Z) (entries : list jsstr) :
  fs !! d = Some (Dir size entries) →
  addEntry fs d leaf !! d =
  Some (Dir size (if bool_decide (leaf ∈ entries) then entries else entries ++ [leaf])).
Proof.
  intros H. unfold addEntry. rewrite H.
  destruct (bool_decide (leaf ∈ entries)); [done|].
  by rewrite lookup_insert_eq.
Qed.

Lemma fs_writeFileSync_ok (fs : FS) (p : jsstr) (content : bytes) (size : Z) (entries : list jsstr) :
  notDir fs p → fs !! parentOf p = Some (Dir size entries) →
  fs_writeFileSync fs p content =
  inr (<[p := File content]> (addEntry fs (parentOf p) (leafOf p))).
Proof.
  intros Hp Hd. unfold fs_writeFileSync. rewrite Hd.
  destruct (fs !! p) as [[s l|c]|] eqn:E; [by destruct (Hp s l)|done..].
Qed.

Lemma fs_writeFileSync_frame (fs fs' : FS) (p q : jsstr) (content : bytes) :
  fs_writeFileSync fs p content = inr fs' →
  q ≠ p → q ≠ parentOf p → fs' !! q = fs !! q.
Proof.
  unfold fs_writeFileSync. intros H Hq Hd.
  destruct (fs !! p) as [[s l|c]|]; [done|..];
    (destruct (fs !! parentOf p) as [[s' l'|c']|]; [|done..]);
    injection H as <-; by rewrite lookup_insert_ne, addEntry_lookup_ne.
Qed.

Lemma elem_of_withEntry (entries : list jsstr) (leaf name : jsstr) :
  name ∈ withEntry entries leaf ↔ name ∈ entries ∨ name = leaf.
Proof.
  unfold withEntry. case_bool_decide as H.
  - split; [by left|]. by intros [?| ->].
  - rewrite elem_of_app, list_elem_of_singleton. done.
Qed.

End Writes.

(** X6. [saveFile] on the normalized path [/<segs>/<name>], when nothing
    or a regular file is there and [/<segs>] is a directory, stores the
    content: reading the path back gives the bytes written, the directory
    lists [name] besides what it listed, every other path is as before,
    and nothing is printed. *)
Theorem saveFile_read_back (segs : list jsstr) (name : jsstr) (content : bytes) (fs : FS)
    (out err : list jsstr) (closed : bool) (size : Z) (entries : list jsstr) :
  Forall plainName segs → plainName name →
  notDir fs (absPath (segs ++ [name])) →
  fs !! absPath segs = Some (Dir size entries) →
  ∃ fs',
    saveFile (absPath (segs ++ [name])) content (mkWorld fs out err closed) =
      Done tt (mkWorld fs' out err closed) ∧
    fs_readFile fs' (absPath (segs ++ [name])) = inr content ∧
    fs_statSize fs' (absPath (segs ++ [name])) = inr (Z.of_nat (length content)) ∧
    dirLists fs' (absPath segs) (fun entry => entry ∈ entries ∨ entry = name) ∧
    (∀ q, q ≠ absPath (segs ++ [name]) → q ≠ absPath segs → fs' !! q = fs !! q).
Proof.
  intros _ Hn Hp Hd.
  destruct (parentOf_abs segs name Hn) as [Hpar Hleaf].
  assert (absPath segs ≠ absPath (segs ++ [name])) as Hne.
  { intros E. rewrite <- E in Hp. by destruct (Hp size entries). }
  eexists. unfold saveFile, fsWrite. cbn [w_fs w_stdout w_stderr w_rlClosed].
  rewrite (fs_writeFileSync_ok fs _ content size entries) by (by rewrite ?Hpar).
  rewrite Hpar, Hleaf.
  split; [reflexivity|].
  unfold fs_readFile, fs_statSize, dirLists.
  rewrite lookup_insert_eq, lookup_insert_ne by done.
  rewrite (addEntry_lookup _ _ _ size entries) by done.
  split; [done|]. split; [done|]. split.
  - eexists _, _. split; [reflexivity|]. intros entry. apply elem_of_withEntry.
  - intros q Hq Hq'. by rewrite lookup_insert_ne, addEntry_lookup_ne.
Qed.

Lemma saveFile_read_back_witness :
  ∃ fs',
    saveFile (lit "/w/svg/b.svg") [1; 2; 3] (Examples.world Examples.fsIcons) =
      Done tt (Examples.world fs') ∧
    fs_readFile fs' (lit "/w/svg/b.svg") = inr [1; 2; 3].
Proof.
  destruct (saveFile_read_back [lit "w"; lit "svg"] (lit "b.svg") [1; 2; 3] Examples.fsIcons
              [] [] false 4096 [lit "a.svg"]) as (fs' & H1 & H2 & _).
  - repeat constructor; discriminate.
  - repeat constructor; discriminate.
  - intros size entries. vm_compute. discriminate.
  - vm_compute. reflexivity.
  - exists fs'. split; [exact H1|exact H2].
Defined.

(** ** More on [generateFont] *)

(** X8. When the font stream finishes without an ['error'] event and
    [svg2ttf] or [ttf2woff2] throws, [generateFont] writes nothing: the
    file system and the standard output are as before, exactly one line
    is added to the error output, and the readline interface is closed. *)
Theorem generateFont_failure (env : Env) (svgFiles : list jsstr) (fontName outputDir : jsstr)
    (fs : FS) (out err : list jsstr) (closed : bool) (line : jsstr) :
  converterFails env fontName fs svgFiles line →
  generateFont env svgFiles fontName outputDir (mkWorld fs out err closed) =
  Done tt (mkWorld fs out (err ++ [line]) true).
Proof.
  unfold generateFont, finishHandler, onFinish. run_unfold.
  intros (chunks & e & -> & -> & [-> | (ttf & -> & ->)]); reflexivity.
Qed.

Lemma generateFont_failure_witness :
  generateFont Examples.envTranscodeError [lit "/w/svg/a.svg"] (lit "icons") (lit "/w/icons")
    (Examples.world Examples.fsIcons) =
  Done tt (mkWorld Examples.fsIcons []
             [lit "Error during font generation: Error: svg2ttf failed"] true).
Proof.
  apply (generateFont_failure Examples.envTranscodeError [lit "/w/svg/a.svg"] (lit "icons")
           (lit "/w/icons") Examples.fsIcons [] [] false).
  eexists _, _. split; [reflexivity|]. split; [reflexivity|]. left. reflexivity.
Defined.

(** The ['data'] events before ['finish'] fill [svgChunks]. *)
Lemma handleEvents_data (env : Env) (svgFiles : list jsstr) (fontName outputDir : jsstr)
    (chunks : list Chunk) (events : list StreamEvent) (svgChunks : list bytes) :
  handleEvents env svgFiles fontName outputDir svgChunks (map DataEvent chunks ++ events) =
  handleEvents env svgFiles fontName outputDir (svgChunks ++ map chunkBuffer chunks) events.
Proof.
  revert svgChunks. induction chunks as [|chunk chunks IH]; intros svgChunks.
  - cbn [map app]. by rewrite app_nil_r.
  - cbn [map app handleEvents]. rewrite IH. by rewrite <- app_assoc.
Qed.

(** A stream that emits its chunks and then ['finish'] is the run without
    ['error']. *)
Lemma generateFont_clean_events (env : Env) (svgFiles : list jsstr) (fontName outputDir : jsstr)
    (chunks : list Chunk) (w : World) :
  env_fontStream env fontName (glyphs (w_fs w) svgFiles) =
    StreamEvents (map DataEvent chunks ++ [FinishEvent]) →
  generateFont env svgFiles fontName outputDir w =
  finishHandler env (map chunkBuffer chunks) svgFiles fontName outputDir w.
Proof.
  intros H. unfold generateFont. cbv [mbind Run_bind run_bind getFS]. rewrite H.
  rewrite handleEvents_data. cbn [app handleEvents]. cbv [mbind Run_bind run_bind].
  by destruct (finishHandler env (map chunkBuffer chunks) svgFiles fontName outputDir w)
    as [[] w'|c w'|e w'].
Qed.

(** An ['error'] of the font stream does not keep a later ['finish'] from
    writing the output: both handlers run. *)
Example run_error_then_finish :
  let o := runProcess Examples.envErrorThenFinish Examples.fsIcons in
  exitCode o = 0 ∧
  stdout o = [lit "Font generation complete! CSS and WOFF2 files have been generated."] ∧
  stderr o = [lit "Error in SVGIcons2SVGFontStream: Error: bad glyph"] ∧
  finalFS o !! lit "/w/icons/icons.woff2" =
    Some (File (1 :: 0 :: utf8Encode (lit "<svg><font/></svg>"))) ∧
  is_Some (finalFS o !! lit "/w/icons/icons.css").
Proof. vm_compute. repeat split; eauto. Qed.

(** An icon that cannot be read ends the process with status 1 when its
    read stream fails: nothing is written and nothing is printed by the
    script. *)
Lemma unreadable_icon_exit_status (env : Env) (fs : FS) (size : Z) (listing : list jsstr)
    (prior : node) (answer file : jsstr) (e : error) :
  readErrorsUncaught env →
  fs !! path_join [env_cwd env; lit "svg"] = Some (Dir size listing) →
  fs !! path_join [env_cwd env; lit "icons"] = Some prior →
  env_answer env = Some answer → confirmed answer = true →
  file ∈ collectSVG (path_join [env_cwd env; lit "svg"]) listing →
  fs_readFile fs file = inl e →
  exitCode (runProcess env fs) = 1.
Proof.
  intros Henv Hs Ho Ha Hc Hin Hread.
  destruct (Henv (lit "icons")
              (glyphs fs (collectSVG (path_join [env_cwd env; lit "svg"]) listing)))
    as [e' He'].
  { apply list_elem_of_lookup in Hin as [i Hi].
    apply Exists_exists. eexists. split.
    - apply list_elem_of_lookup. exists i. unfold glyphs.
      rewrite list_lookup_imap, Hi. reflexivity.
    - by exists e. }
  apply (exit_status_uncaught env fs size listing prior answer e'); try done.
  intros E. rewrite E in Hin. by apply elem_of_nil in Hin.
Qed.

Example run_unreadable_icon :
  let o := runProcess Examples.envReads Examples.fsIconIsDir in
  exitCode o = 1 ∧ stdout o = [] ∧ stderr o = [lit "EISDIR"] ∧
  finalFS o !! lit "/w/icons/icons.woff2" = None ∧
  finalFS o !! lit "/w/icons/icons.css" = None.
Proof. vm_compute. repeat split. Qed.

(** Every run of the ['finish'] handler leaves the paths outside the
    output alone. *)
Lemma finishHandler_frame (env : Env) (svgChunks : list bytes) (svgFiles : list jsstr)
    (fontName outputDir : jsstr) (w w' : World) (q : jsstr) :
  finishHandler env svgChunks svgFiles fontName outputDir w = Done tt w' →
  q ≠ path_join [outputDir; fontName ++ lit ".woff2"] →
  q ≠ path_join [outputDir; fontName ++ lit ".css"] →
  q ≠ parentOf (path_join [outputDir; fontName ++ lit ".woff2"]) →
  q ≠ parentOf (path_join [outputDir; fontName ++ lit ".css"]) →
  w_fs w' !! q = w_fs w !! q.
Proof.
  destruct w as [fs out err closed].
  unfold finishHandler, onFinish. run_unfold.
  intros H Hw Hc Hpw Hpc. revert H.
  destruct (env_svg2ttf env _) as [e|ttf]; [by intros [= <-]|].
  destruct (env_ttf2woff2 env ttf) as [e|woff2]; [by intros [= <-]|].
  run_unfold.
  match goal with
  | |- context [fs_writeFileSync fs ?p ?c] =>
      destruct (fs_writeFileSync fs p c) as [e|fs1] eqn:E1; [by intros [= <-]|]
  end.
  assert (fs1 !! q = fs !! q) as H1 by (by eapply fs_writeFileSync_frame).
  run_unfold.
  match goal with
  | |- context [fs_writeFileSync fs1 ?p ?c] =>
      destruct (fs_writeFileSync fs1 p c) as [e|fs2] eqn:E2; [by intros [= <-]|]
  end.
  intros [= <-]. cbn [w_fs]. rewrite <- H1. by eapply fs_writeFileSync_frame.
Qed.

Lemma handleEvents_frame (env : Env) (svgFiles : list jsstr) (fontName outputDir : jsstr)
    (events : list StreamEvent) (svgChunks : list bytes) (w w' : World) (q : jsstr) :
  handleEvents env svgFiles fontName outputDir svgChunks events w = Done tt w' →
  q ≠ path_join [outputDir; fontName ++ lit ".woff2"] →
  q ≠ path_join [outputDir; fontName ++ lit ".css"] →
  q ≠ parentOf (path_join [outputDir; fontName ++ lit ".woff2"]) →
  q ≠ parentOf (path_join [outputDir; fontName ++ lit ".css"]) →
  w_fs w' !! q = w_fs w !! q.
Proof.
  intros H Hw Hc Hpw Hpc. revert svgChunks w H.
  induction events as [|[chunk| |e] events IH]; intros svgChunks w; cbn [handleEvents].
  - by intros [= <-].
  - apply IH.
  - cbv [mbind Run_bind run_bind].
    destruct (finishHandler env svgChunks svgFiles fontName outputDir w) as [[] w1|c w1|e w1]
      eqn:E; [|done..].
    intros H. rewrite (IH _ _ H). by eapply finishHandler_frame.
  - destruct w as [fs out err closed]. run_unfold. intros H. by rewrite (IH _ _ H).
Qed.

(** X9. Whatever happens, [generateFont] touches at most four paths: the
    font file, the stylesheet and the directories that hold them.  Every
    other path, the icons read among them, is as it was before. *)
Theorem generateFont_frame (env : Env) (svgFiles : list jsstr) (fontName outputDir : jsstr)
    (w w' : World) (q : jsstr) :
  generateFont env svgFiles fontName outputDir w = Done tt w' →
  q ≠ path_join [outputDir; fontName ++ lit ".woff2"] →
  q ≠ path_join [outputDir; fontName ++ lit ".css"] →
  q ≠ parentOf (path_join [outputDir; fontName ++ lit ".woff2"]) →
  q ≠ parentOf (path_join [outputDir; fontName ++ lit ".css"]) →
  w_fs w' !! q = w_fs w !! q.
Proof.
  unfold generateFont. cbv [mbind Run_bind run_bind getFS].
  destruct (env_fontStream env fontName (glyphs (w_fs w) svgFiles)) as [chunks|e|events|e].
  - apply finishHandler_frame.
  - destruct w as [fs out err closed]. run_unfold. by intros [= <-].
  - apply handleEvents_frame.
  - done.
Qed.

Lemma generateFont_frame_witness :
  w_fs (worldAfter (generateFont Examples.envOk [lit "/w/svg/a.svg"] (lit "icons")
                      (lit "/w/icons") (Examples.world Examples.fsPrior)))
    !! lit "/w/svg/a.svg" = Some (File (utf8Encode (lit "<svg/>"))).
Proof.
  rewrite (generateFont_frame Examples.envOk [lit "/w/svg/a.svg"] (lit "icons") (lit "/w/icons")
             (Examples.world Examples.fsPrior)
             (worldAfter (generateFont Examples.envOk [lit "/w/svg/a.svg"] (lit "icons")
                            (lit "/w/icons") (Examples.world Examples.fsPrior)))
             (lit "/w/svg/a.svg")
             ltac:(vm_compute; reflexivity)
             ltac:(vm_compute; discriminate) ltac:(vm_compute; discriminate)
             ltac:(vm_compute; discriminate) ltac:(vm_compute; discriminate)).
  vm_compute. reflexivity.
Defined.

Section Success.

Lemma plainName_ext (fontName ext : jsstr) :
  Forall (fun c => isSlash c = false) fontName →
  Forall (fun c => isSlash c = false) ext → (3 ≤ length ext)%nat →
  plainName (fontName ++ ext).
Proof.
  intros Hf He Hl. split; [|by apply Forall_app].
  repeat split; intros E; apply (f_equal length) in E; rewrite length_app in E;
    cbn in E; lia.
Qed.

End Success.

(** The two writes of a successful ['finish'] handler, with the listing
    of the output directory spelled out. *)
Lemma generateFont_writes (env : Env) (svgFiles : list jsstr) (fontName : jsstr)
    (segs : list jsstr) (fs : FS) (out err : list jsstr) (closed : bool)
    (size : Z) (entries : list jsstr) (chunks : list Chunk) (ttf woff2 : bytes) :
  let outputDir := absPath segs in
  let woff2Path := path_join [outputDir; fontName ++ lit ".woff2"] in
  let cssPath := path_join [outputDir; fontName ++ lit ".css"] in
  Forall plainName segs →
  Forall (fun c => isSlash c = false) fontName →
  fs !! outputDir = Some (Dir size entries) →
  notDir fs woff2Path → notDir fs cssPath →
  env_fontStream env fontName (glyphs fs svgFiles) = StreamFinish chunks →
  env_svg2ttf env (concat (map chunkBuffer chunks)) = inr ttf →
  env_ttf2woff2 env ttf = inr woff2 →
  ∃ fs',
    generateFont env svgFiles fontName outputDir (mkWorld fs out err closed) =
      Done tt (mkWorld fs'
                 (out ++ [lit "Font generation complete! CSS and WOFF2 files have been generated."])
                 err true) ∧
    fs' !! woff2Path = Some (File woff2) ∧
    fs' !! cssPath = Some (File (utf8Encode (cssOutput fontName svgFiles))) ∧
    fs' !! outputDir =
      Some (Dir size (withEntry (withEntry entries (fontName ++ lit ".woff2"))
                        (fontName ++ lit ".css"))) ∧
    (∀ q, q ≠ woff2Path → q ≠ cssPath → q ≠ outputDir → fs' !! q = fs !! q).
Proof.
  intros outputDir woff2Path cssPath Hsegs Hfn Hdir Hnw Hnc Hstream Httf Hwoff.
  assert (plainName (fontName ++ lit ".woff2")) as Hpw
    by (apply plainName_ext; [done|by repeat constructor|simpl; lia]).
  assert (plainName (fontName ++ lit ".css")) as Hpc
    by (apply plainName_ext; [done|by repeat constructor|simpl; lia]).
  destruct (parentOf_abs segs _ Hpw) as [Hparw Hleafw].
  destruct (parentOf_abs segs _ Hpc) as [Hparc Hleafc].
  subst woff2Path cssPath outputDir.
  unfold generateFont, finishHandler, onFinish. run_unfold.
  rewrite Hstream, Httf, Hwoff.
  rewrite !path_join_abs in * by done.
  set (outputDir := absPath segs) in *.
  set (woff2Path := absPath (segs ++ [fontName ++ lit ".woff2"])) in *.
  set (cssPath := absPath (segs ++ [fontName ++ lit ".css"])) in *.
  assert (woff2Path ≠ cssPath) as Hne.
  { intros E. apply absPath_inj_last, app_inv_head in E. discriminate E. }
  assert (woff2Path ≠ outputDir) as Hwo.
  { intros E. rewrite E in Hnw. by destruct (Hnw size entries). }
  assert (cssPath ≠ outputDir) as Hco.
  { intros E. rewrite E in Hnc. by destruct (Hnc size entries). }
  run_unfold.
  rewrite (fs_writeFileSync_ok fs woff2Path woff2 size entries) by (by rewrite ?Hparw).
  run_unfold. rewrite Hparw, Hleafw.
  set (fs1 := <[woff2Path := File woff2]> (addEntry fs outputDir (fontName ++ lit ".woff2"))).
  assert (fs1 !! outputDir = Some (Dir size (withEntry entries (fontName ++ lit ".woff2")))) as Hd1.
  { unfold fs1. rewrite lookup_insert_ne by done. by apply addEntry_lookup. }
  rewrite (fs_writeFileSync_ok fs1 cssPath _ size (withEntry entries (fontName ++ lit ".woff2"))).
  2:{ intros s l. unfold fs1. rewrite lookup_insert_ne, addEntry_lookup_ne by done. apply Hnc. }
  2:{ by rewrite Hparc. }
  run_unfold. rewrite Hparc, Hleafc.
  eexists. split; [reflexivity|].
  split; [|split; [|split]].
  - rewrite lookup_insert_ne, addEntry_lookup_ne by done. unfold fs1. by rewrite lookup_insert_eq.
  - by rewrite lookup_insert_eq.
  - rewrite lookup_insert_ne by done. by apply addEntry_lookup.
  - intros q Hq1 Hq2 Hq3.
    rewrite lookup_insert_ne, addEntry_lookup_ne by done.
    unfold fs1. by rewrite lookup_insert_ne, addEntry_lookup_ne.
Qed.

(** X10. When the output directory [/.../dir] exists, neither output path is
    a directory, the font stream finishes and both converters return,
    [generateFont] writes exactly two files into it: [<fontName>.woff2]
    holds the bytes [ttf2woff2] returned and [<fontName>.css] holds the
    UTF-8 bytes of [cssOutput]; the directory lists both, every other path
    is untouched, the completion message is printed and the readline
    interface is closed. *)
Theorem generateFont_success (env : Env) (svgFiles : list jsstr) (fontName : jsstr)
    (segs : list jsstr) (fs : FS) (out err : list jsstr) (closed : bool)
    (size : Z) (entries : list jsstr) (chunks : list Chunk) (ttf woff2 : bytes) :
  let outputDir := absPath segs in
  let woff2Path := path_join [outputDir; fontName ++ lit ".woff2"] in
  let cssPath := path_join [outputDir; fontName ++ lit ".css"] in
  Forall plainName segs →
  Forall (fun c => isSlash c = false) fontName →
  fs !! outputDir = Some (Dir size entries) →
  notDir fs woff2Path → notDir fs cssPath →
  env_fontStream env fontName (glyphs fs svgFiles) = StreamFinish chunks →
  env_svg2ttf env (concat (map chunkBuffer chunks)) = inr ttf →
  env_ttf2woff2 env ttf = inr woff2 →
  ∃ fs',
    generateFont env svgFiles fontName outputDir (mkWorld fs out err closed) =
      Done tt (mkWorld fs'
                 (out ++ [lit "Font generation complete! CSS and WOFF2 files have been generated."])
                 err true) ∧
    fs' !! woff2Path = Some (File woff2) ∧
    fs' !! cssPath = Some (File (utf8Encode (cssOutput fontName svgFiles))) ∧
    dirLists fs' outputDir
      (fun name => name ∈ entries ∨ name = fontName ++ lit ".woff2"
                   ∨ name = fontName ++ lit ".css") ∧
    (∀ q, q ≠ woff2Path → q ≠ cssPath → q ≠ outputDir → fs' !! q = fs !! q).
Proof.
  intros outputDir woff2Path cssPath Hsegs Hfn Hdir Hnw Hnc Hstream Httf Hwoff.
  destruct (generateFont_writes env svgFiles fontName segs fs out err closed size entries
              chunks ttf woff2) as (fs' & H1 & H2 & H3 & H4 & H5); [done..|].
  exists fs'. split; [exact H1|]. split; [exact H2|]. split; [exact H3|].
  split; [|exact H5].
  eexists _, _. split; [exact H4|]. intros name.
  rewrite !elem_of_withEntry. tauto.
Qed.

Lemma generateFont_success_witness :
  ∃ fs',
    generateFont Examples.envOk [lit "/w/svg/a.svg"] (lit "icons") (lit "/w/icons")
      (Examples.world Examples.fsPrior) =
      Done tt (mkWorld fs'
                 [lit "Font generation complete! CSS and WOFF2 files have been generated."]
                 [] true) ∧
    fs' !! lit "/w/icons/icons.woff2" =
      Some (File (1 :: 0 :: utf8Encode (lit "<svg><font/></svg>"))) ∧
    fs' !! lit "/w/icons/icons.css" =
      Some (File (utf8Encode (cssOutput (lit "icons") [lit "/w/svg/a.svg"]))).
Proof.
  destruct (generateFont_success Examples.envOk [lit "/w/svg/a.svg"] (lit "icons")
              [lit "w"; lit "icons"] Examples.fsPrior [] [] false 4096 [lit "icons.css"]
              [StringChunk (lit "<svg><font/>"); BufferChunk (utf8Encode (lit "</svg>"))]
              (0 :: utf8Encode (lit "<svg><font/></svg>"))
              (1 :: 0 :: utf8Encode (lit "<svg><font/></svg>")))
    as (fs' & H1 & H2 & H3 & _).
  - repeat constructor; discriminate.
  - repeat constructor.
  - vm_compute. reflexivity.
  - intros size entries. vm_compute. discriminate.
  - intros size entries. vm_compute. discriminate.
  - reflexivity.
  - reflexivity.
  - reflexivity.
  - exists fs'. split; [exact H1|]. split; [exact H2|exact H3].
Defined.

(** ** More on the Input Collector *)

Section Collector.

Lemma svg_entry_length (file : jsstr) :
  endsWith file (lit ".svg") = true → (4 ≤ length file)%nat.
Proof.
  unfold endsWith. rewrite bool_decide_eq_true. intros H.
  apply (f_equal length) in H. rewrite length_drop in H. cbn in H. lia.
Qed.

Lemma svg_entry_plain (file : jsstr) :
  endsWith file (lit ".svg") = true → plainSegment file.
Proof.
  intros H. apply svg_entry_length in H.
  repeat split; intros ->; cbn in H; lia.
Qed.

Lemma endsWith_app (pre file suffix : jsstr) :
  endsWith file suffix = true → endsWith (pre ++ file) suffix = true.
Proof.
  unfold endsWith. rewrite !bool_decide_eq_true. intros H.
  assert (length suffix ≤ length file)%nat as Hl.
  { apply (f_equal length) in H. rewrite length_drop in H. lia. }
  rewrite length_app, drop_app_ge by lia. rewrite <- H at 2. f_equal. lia.
Qed.

Lemma absPath_endsWith (segs : list jsstr) (file suffix : jsstr) :
  endsWith file suffix = true → endsWith (absPath (segs ++ [file])) suffix = true.
Proof.
  intros H. rewrite absPath_snoc.
  destruct segs; [apply (endsWith_app [47]), H|].
  rewrite (app_assoc _ [47] file : _ ++ 47 :: file = _). by apply endsWith_app.
Qed.

Lemma collectSVG_abs (segs : list jsstr) (listing : list jsstr) :
  Forall plainName segs →
  Forall (Forall (fun c => isSlash c = false)) listing →
  collectSVG (absPath segs) listing =
  map (fun file => absPath (segs ++ [file])) (svgEntries listing).
Proof.
  intros Hsegs H. unfold collectSVG, svgEntries.
  induction H as [|file listing Hf _ IH]; [done|].
  destruct (decide (endsWith file (lit ".svg") = true)) as [E|E].
  - rewrite !filter_cons_True by done. cbn [map]. rewrite IH. f_equal.
    apply path_join_abs; [done|]. split; [by apply svg_entry_plain|done].
  - by rewrite !filter_cons_False.
Qed.

End Collector.

(** X11. For a normalized absolute directory whose listing holds plain
    names, [readSVGFiles] returns, in listing order, one path per entry that
    ends in [.svg]: the directory with the entry as a new last segment.
    Every returned path ends in [.svg] itself, and the world is as it was
    before. *)
Theorem readSVGFiles_listing (segs : list jsstr) (w : World) (size : Z) (listing : list jsstr) :
  Forall plainName segs →
  Forall (Forall (fun c => isSlash c = false)) listing →
  w_fs w !! absPath segs = Some (Dir size listing) →
  readSVGFiles (absPath segs) w =
    Done (map (fun file => absPath (segs ++ [file])) (svgEntries listing)) w ∧
  Forall (fun p => endsWith p (lit ".svg") = true)
    (map (fun file => absPath (segs ++ [file])) (svgEntries listing)) ∧
  (length (svgEntries listing) ≤ length listing)%nat.
Proof.
  intros Hsegs Hl Hd. split; [|split].
  - unfold readSVGFiles, fsRead, fs_readdirSync, mbind, Run_bind, run_bind, mret, Run_ret, run_ret.
    rewrite Hd. by rewrite collectSVG_abs.
  - apply Forall_fmap, Forall_forall. intros file Hin.
    apply list_elem_of_filter in Hin as [Hsvg _]. by apply absPath_endsWith.
  - apply length_filter.
Qed.

Lemma readSVGFiles_listing_witness :
  readSVGFiles (lit "/w/svg")
    (Examples.world (<[lit "/w/svg" := Dir 4096 [lit "b.svg"; lit "x.txt"; lit "a.svg"]]> ∅)) =
  Done [lit "/w/svg/b.svg"; lit "/w/svg/a.svg"]
    (Examples.world (<[lit "/w/svg" := Dir 4096 [lit "b.svg"; lit "x.txt"; lit "a.svg"]]> ∅)).
Proof.
  apply (readSVGFiles_listing [lit "w"; lit "svg"]
           (Examples.world (<[lit "/w/svg" := Dir 4096 [lit "b.svg"; lit "x.txt"; lit "a.svg"]]> ∅))
           4096 [lit "b.svg"; lit "x.txt"; lit "a.svg"]).
  - repeat constructor; discriminate.
  - repeat constructor.
  - vm_compute. reflexivity.
Defined.

(** ** More runs of the script *)

(** X12. When the path of the input directory exists but is a regular
    file, [readdirSync] throws and nothing catches it: the run ends with
    exit status 1, the exception on the error output, nothing on the
    standard output and the file system unchanged (no output directory is
    created). *)
Theorem run_input_not_a_directory (env : Env) (fs : FS) (content : bytes) :
  fs !! path_join [env_cwd env; lit "svg"] = Some (File content) →
  runProcess env fs = mkOutcome 1 fs [] [lit "ENOTDIR"].
Proof.
  intros H. unfold runProcess, main, readSVGFiles, fs_existsSync, fs_readdirSync.
  run_unfold. rewrite H. rewrite bool_decide_true by eauto. run_unfold.
  rewrite H. reflexivity.
Qed.

Lemma run_input_not_a_directory_witness :
  runProcess Examples.envOk (<[lit "/w/svg" := File [1]]> Examples.fsNoSvg) =
  mkOutcome 1 (<[lit "/w/svg" := File [1]]> Examples.fsNoSvg) [] [lit "ENOTDIR"].
Proof.
  apply (run_input_not_a_directory Examples.envOk _ [1]).
  vm_compute. reflexivity.
Defined.

Section MainPaths.

Context (env : Env) (segs : list jsstr).
Hypothesis Hcwd : env_cwd env = absPath segs.
Hypothesis Hsegs : Forall plainName segs.

Lemma plainName_svg : plainName (lit "svg").
Proof. repeat constructor; discriminate. Qed.

Lemma plainName_icons : plainName (lit "icons").
Proof. repeat constructor; discriminate. Qed.

Lemma svgDirectory_abs : path_join [env_cwd env; lit "svg"] = absPath (segs ++ [lit "svg"]).
Proof. rewrite Hcwd. apply path_join_abs; [done|apply plainName_svg]. Qed.

Lemma outputDirectory_abs : path_join [env_cwd env; lit "icons"] = absPath (segs ++ [lit "icons"]).
Proof. rewrite Hcwd. apply path_join_abs; [done|apply plainName_icons]. Qed.

Lemma currentDir_abs : path_join [env_cwd env] = absPath segs.
Proof. rewrite Hcwd. by apply path_join_single. Qed.

Lemma mkdir_existing (fs : FS) (p : jsstr) (size : Z) (entries : list jsstr) :
  fs !! p = Some (Dir size entries) → fs_mkdirSyncRecursive fs p = inr fs.
Proof.
  intros H. unfold fs_mkdirSyncRecursive.
  destruct (length p); cbn [mkdirAncestors]; by rewrite H.
Qed.

Lemma mkdir_child (fs : FS) (name : jsstr) (size : Z) (entries : list jsstr) :
  plainName name →
  fs !! absPath segs = Some (Dir size entries) →
  fs !! absPath (segs ++ [name]) = None →
  fs_mkdirSyncRecursive fs (absPath (segs ++ [name])) =
  inr (<[absPath (segs ++ [name]) := Dir 4096 []]> (addEntry fs (absPath segs) name)).
Proof.
  intros Hname Hd Hn. destruct (parentOf_abs segs name Hname) as [Hpar Hleaf].
  unfold fs_mkdirSyncRecursive.
  destruct (length (absPath (segs ++ [name]))) as [|fuel] eqn:E.
  { rewrite absPath_snoc in E. destruct segs; [done|]. rewrite length_app in E.
    cbn in E. lia. }
  cbn [mkdirAncestors]. rewrite Hn, Hpar, Hleaf.
  destruct fuel; cbn [mkdirAncestors]; by rewrite Hd.
Qed.

(** With an output directory that does not exist yet, the directory is
    created and generation starts without any question. *)
Lemma main_creates_output (fs : FS) (out err : list jsstr) (closed : bool)
    (size sizeCwd : Z) (listing entriesCwd : list jsstr) :
  fs !! absPath segs = Some (Dir sizeCwd entriesCwd) →
  fs !! absPath (segs ++ [lit "svg"]) = Some (Dir size listing) →
  Exists (fun file => endsWith file (lit ".svg") = true) listing →
  fs !! absPath (segs ++ [lit "icons"]) = None →
  main env (mkWorld fs out err closed) =
  generateFont env (collectSVG (absPath (segs ++ [lit "svg"])) listing) (lit "icons")
    (absPath (segs ++ [lit "icons"]))
    (mkWorld (<[absPath (segs ++ [lit "icons"]) := Dir 4096 []]>
                (addEntry fs (absPath segs) (lit "icons"))) out err closed).
Proof.
  intros Hc Hs Hl Ho. unfold main, readSVGFiles, fs_existsSync, fs_readdirSync.
  rewrite svgDirectory_abs, outputDirectory_abs, currentDir_abs.
  run_unfold. rewrite Hs. rewrite bool_decide_true by eauto. run_unfold.
  rewrite Hs. run_unfold.
  rewrite bool_decide_false by (intros E%nil_length_inv; by eapply collectSVG_some).
  run_unfold. rewrite Ho. rewrite bool_decide_false by (by intros [? ?]).
  rewrite (mkdir_existing fs _ sizeCwd entriesCwd) by done. run_unfold.
  rewrite (mkdir_child fs (lit "icons") sizeCwd entriesCwd) by (done || apply plainName_icons).
  reflexivity.
Qed.

(** With an existing output directory and a confirming answer, the
    question is printed and generation starts on the unchanged file
    system. *)
Lemma main_accepted (fs : FS) (out err : list jsstr) (closed : bool)
    (size : Z) (listing : list jsstr) (prior : node) (answer : jsstr) :
  fs !! absPath (segs ++ [lit "svg"]) = Some (Dir size listing) →
  Exists (fun file => endsWith file (lit ".svg") = true) listing →
  fs !! absPath (segs ++ [lit "icons"]) = Some prior →
  env_answer env = Some answer → confirmed answer = true →
  main env (mkWorld fs out err closed) =
  generateFont env (collectSVG (absPath (segs ++ [lit "svg"])) listing) (lit "icons")
    (absPath (segs ++ [lit "icons"]))
    (mkWorld fs (out ++ [msgQuestion]) err closed).
Proof.
  intros Hs Hl Ho Ha Hc. unfold main, readSVGFiles, fs_existsSync, fs_readdirSync.
  rewrite svgDirectory_abs, outputDirectory_abs.
  run_unfold. rewrite Hs. rewrite bool_decide_true by eauto. run_unfold.
  rewrite Hs. run_unfold.
  rewrite bool_decide_false by (intros E%nil_length_inv; by eapply collectSVG_some).
  run_unfold. rewrite Ho. rewrite bool_decide_true by eauto.
  run_unfold. rewrite Ha, Hc. reflexivity.
Qed.

End MainPaths.

Section EndToEnd.

Lemma absPath_snoc_length (segs : list jsstr) (name : jsstr) :
  name ≠ [] → (length (absPath segs) < length (absPath (segs ++ [name])))%nat.
Proof.
  intros Hne. rewrite absPath_snoc. destruct segs as [|seg segs].
  - destruct name; [done|]. cbn. lia.
  - rewrite length_app. cbn [length]. lia.
Qed.

Lemma absPath_child_ne_sibling (segs : list jsstr) (a b file : jsstr) :
  a ≠ [] → plainName file → plainName b →
  absPath (segs ++ [a; file]) ≠ absPath (segs ++ [b]).
Proof.
  intros Ha Hf Hb E. apply (f_equal parentOf) in E.
  rewrite (app_assoc segs [a] [file] : segs ++ [a; file] = _) in E.
  rewrite (proj1 (parentOf_abs _ _ Hf)), (proj1 (parentOf_abs _ _ Hb)) in E.
  by apply absPath_snoc_ne in E.
Qed.

Lemma absPath_child_ne_root (segs : list jsstr) (a file : jsstr) :
  a ≠ [] → file ≠ [] → absPath (segs ++ [a; file]) ≠ absPath segs.
Proof.
  intros Ha Hf E. apply (f_equal length) in E.
  rewrite (app_assoc segs [a] [file] : segs ++ [a; file] = _) in E.
  pose proof (absPath_snoc_length (segs ++ [a]) file Hf).
  pose proof (absPath_snoc_length segs a Ha). lia.
Qed.

(** Reading an entry of a directory depends on the entry and on the
    directory only. *)
Lemma fs_readFile_ext (fs fs' : FS) (dir : list jsstr) (name : jsstr) :
  plainName name →
  is_Some (fs !! absPath dir) →
  fs' !! absPath dir = fs !! absPath dir →
  fs' !! absPath (dir ++ [name]) = fs !! absPath (dir ++ [name]) →
  fs_readFile fs' (absPath (dir ++ [name])) = fs_readFile fs (absPath (dir ++ [name])).
Proof.
  intros Hn [parent Hp] Hd Hf. unfold fs_readFile. rewrite Hf.
  destruct (fs !! absPath (dir ++ [name])) as [[s l|c]|]; [done..|].
  rewrite (missingError_child fs dir name parent) by done.
  rewrite (missingError_child fs' dir name parent) by (by rewrite ?Hd). done.
Qed.

Lemma glyphs_ext (fs fs' : FS) (svgFiles : list jsstr) :
  Forall (fun file => fs_readFile fs' file = fs_readFile fs file) svgFiles →
  glyphs fs' svgFiles = glyphs fs svgFiles.
Proof.
  intros H. unfold glyphs. apply imap_ext. intros i file Hi. cbn beta.
  rewrite Forall_lookup in H. by rewrite (H i file Hi).
Qed.

End EndToEnd.

(** X13. A first run that succeeds.  In a working directory [/.../cwd]
    that holds an [svg] directory with at least one [.svg] entry and no
    [icons] directory, with a font stream that finishes and converters
    that return, the run ends with exit status 0 and only the completion
    message; [icons] is created, listed in the working directory, and
    holds exactly [icons.woff2] (the bytes from [ttf2woff2]) and
    [icons.css] (the UTF-8 bytes of the stylesheet for the collected
    files); every other path is as before. *)
Theorem run_first_success (env : Env) (segs : list jsstr) (fs : FS)
    (size sizeCwd : Z) (listing entriesCwd : list jsstr)
    (chunks : list Chunk) (ttf woff2 : bytes) :
  let svgFiles := map (fun file => absPath (segs ++ [lit "svg"; file])) (svgEntries listing) in
  let outputDir := absPath (segs ++ [lit "icons"]) in
  let woff2Path := absPath (segs ++ [lit "icons"; lit "icons.woff2"]) in
  let cssPath := absPath (segs ++ [lit "icons"; lit "icons.css"]) in
  env_cwd env = absPath segs → Forall plainName segs →
  fs !! absPath segs = Some (Dir sizeCwd entriesCwd) →
  fs !! absPath (segs ++ [lit "svg"]) = Some (Dir size listing) →
  Forall (Forall (fun c => isSlash c = false)) listing →
  Exists (fun file => endsWith file (lit ".svg") = true) listing →
  fs !! outputDir = None → notDir fs woff2Path → notDir fs cssPath →
  env_fontStream env (lit "icons") (glyphs fs svgFiles) = StreamFinish chunks →
  env_svg2ttf env (concat (map chunkBuffer chunks)) = inr ttf →
  env_ttf2woff2 env ttf = inr woff2 →
  ∃ fs',
    runProcess env fs =
      mkOutcome 0 fs'
        [lit "Font generation complete! CSS and WOFF2 files have been generated."] [] ∧
    fs' !! woff2Path = Some (File woff2) ∧
    fs' !! cssPath = Some (File (utf8Encode (cssOutput (lit "icons") svgFiles))) ∧
    dirLists fs' outputDir
      (fun name => name = lit "icons.woff2" ∨ name = lit "icons.css") ∧
    dirLists fs' (absPath segs) (fun name => name ∈ entriesCwd ∨ name = lit "icons") ∧
    (∀ q, q ≠ woff2Path → q ≠ cssPath → q ≠ outputDir → q ≠ absPath segs →
          fs' !! q = fs !! q).
Proof.
  intros svgFiles outputDir woff2Path cssPath Hcwd Hsegs Hc Hs Hl Hex Ho Hnw Hnc
    Hstream Httf Hwoff.
  assert (Forall plainName (segs ++ [lit "svg"])) as Hsvg
    by (apply Forall_app; split; [done|constructor; [apply plainName_svg|done]]).
  assert (Forall plainName (segs ++ [lit "icons"])) as Hicons
    by (apply Forall_app; split; [done|constructor; [apply plainName_icons|done]]).
  assert (collectSVG (absPath (segs ++ [lit "svg"])) listing = svgFiles) as Hfiles.
  { rewrite collectSVG_abs by done. unfold svgFiles. apply map_ext. intros file.
    by rewrite <- app_assoc. }
  assert (plainName (lit "icons.woff2")) as Hpw by (repeat constructor; discriminate).
  assert (plainName (lit "icons.css")) as Hpc by (repeat constructor; discriminate).
  assert (outputDir ≠ absPath segs) as Hoc by (by apply absPath_snoc_ne).
  assert (woff2Path ≠ outputDir ∧ woff2Path ≠ absPath segs) as [Hwo Hwc].
  { unfold woff2Path, outputDir. split; [|by apply absPath_child_ne_root].
    rewrite (app_assoc segs [lit "icons"] [lit "icons.woff2"] : segs ++ [_; _] = _).
    by apply absPath_snoc_ne. }
  assert (cssPath ≠ outputDir ∧ cssPath ≠ absPath segs) as [Hco Hcc].
  { unfold cssPath, outputDir. split; [|by apply absPath_child_ne_root].
    rewrite (app_assoc segs [lit "icons"] [lit "icons.css"] : segs ++ [_; _] = _).
    by apply absPath_snoc_ne. }
  set (fs1 := <[outputDir := Dir 4096 []]> (addEntry fs (absPath segs) (lit "icons"))).
  assert (∀ q, q ≠ outputDir → q ≠ absPath segs → fs1 !! q = fs !! q) as Hframe1.
  { intros q H1 H2. unfold fs1. by rewrite lookup_insert_ne, addEntry_lookup_ne. }
  unfold runProcess.
  rewrite (main_creates_output env segs Hcwd Hsegs fs [] [] false size sizeCwd listing entriesCwd)
    by done.
  rewrite Hfiles.
  destruct (generateFont_writes env svgFiles (lit "icons") (segs ++ [lit "icons"]) fs1
              [] [] false 4096 [] chunks ttf woff2) as (fs' & Hrun & H1 & H2 & H3 & H4).
  - done.
  - repeat constructor.
  - unfold fs1. by rewrite lookup_insert_eq.
  - rewrite path_join_abs, <- app_assoc by done. intros s l.
    fold woff2Path. rewrite Hframe1 by done. apply Hnw.
  - rewrite path_join_abs, <- app_assoc by done. intros s l.
    fold cssPath. rewrite Hframe1 by done. apply Hnc.
  - rewrite <- Hstream. f_equal. apply glyphs_ext.
    unfold svgFiles. apply Forall_fmap, Forall_forall. intros file Hin. cbn beta.
    apply list_elem_of_filter in Hin as [Hsvgf Hin].
    rewrite Forall_forall in Hl. specialize (Hl file Hin).
    assert (plainName file) as Hpf by (split; [by apply svg_entry_plain|done]).
    unfold compose.
    rewrite (app_assoc segs [lit "svg"] [file] : segs ++ [lit "svg"; file] = _).
    apply fs_readFile_ext; [done|by eexists|..].
    + apply Hframe1; [|by apply absPath_snoc_ne].
      intros E. by apply absPath_inj_last in E.
    + rewrite <- app_assoc. apply Hframe1.
      * apply absPath_child_ne_sibling; [done|done|apply plainName_icons].
      * apply absPath_child_ne_root; [done|]. by destruct Hpf as [[? _] _].
  - done.
  - done.
  - assert (path_join [absPath (segs ++ [lit "icons"]); lit "icons" ++ lit ".woff2"]
            = woff2Path) as Ew
      by (rewrite path_join_abs, <- app_assoc by done; reflexivity).
    assert (path_join [absPath (segs ++ [lit "icons"]); lit "icons" ++ lit ".css"]
            = cssPath) as Ec
      by (rewrite path_join_abs, <- app_assoc by done; reflexivity).
    rewrite Ew in H1. rewrite Ec in H2.
    unfold fs1, outputDir in Hrun. rewrite Hrun. exists fs'. split; [reflexivity|].
    split; [exact H1|]. split; [exact H2|].
    split; [|split].
    + eexists _, _. split; [exact H3|]. intros name.
      rewrite !elem_of_withEntry, elem_of_nil. tauto.
    + eexists _, _. split.
      * rewrite H4 by (rewrite ?Ew, ?Ec; done). unfold fs1. rewrite lookup_insert_ne by done.
        by apply addEntry_lookup.
      * intros name. apply elem_of_withEntry.
    + intros q Hq1 Hq2 Hq3 Hq4. rewrite H4 by (rewrite ?Ew, ?Ec; done). by apply Hframe1.
Qed.

Lemma run_first_success_witness :
  ∃ fs',
    runProcess Examples.envOk Examples.fsIcons =
      mkOutcome 0 fs'
        [lit "Font generation complete! CSS and WOFF2 files have been generated."] [] ∧
    fs' !! lit "/w/icons/icons.woff2" =
      Some (File (1 :: 0 :: utf8Encode (lit "<svg><font/></svg>"))) ∧
    fs' !! lit "/w/icons/icons.css" =
      Some (File (utf8Encode (cssOutput (lit "icons") [lit "/w/svg/a.svg"]))) ∧
    dirLists fs' (lit "/w/icons")
      (fun name => name = lit "icons.woff2" ∨ name = lit "icons.css").
Proof.
  destruct (run_first_success Examples.envOk [lit "w"] Examples.fsIcons 4096 4096
              [lit "a.svg"] [lit "svg"]
              [StringChunk (lit "<svg><font/>"); BufferChunk (utf8Encode (lit "</svg>"))]
              (0 :: utf8Encode (lit "<svg><font/></svg>"))
              (1 :: 0 :: utf8Encode (lit "<svg><font/></svg>")))
    as (fs' & H1 & H2 & H3 & H4 & _).
  - reflexivity.
  - repeat constructor; discriminate.
  - vm_compute. reflexivity.
  - vm_compute. reflexivity.
  - repeat constructor.
  - constructor. vm_compute. reflexivity.
  - vm_compute. reflexivity.
  - intros size entries. vm_compute. discriminate.
  - intros size entries. vm_compute. discriminate.
  - reflexivity.
  - reflexivity.
  - reflexivity.
  - exists fs'. split; [exact H1|]. split; [exact H2|]. split; [exact H3|exact H4].
Defined.

(** X14. An accepted overwrite that succeeds.  When [icons] already
    exists as a directory and the answer confirms, the run prints the
    question and the completion message and ends with exit status 0;
    [icons.woff2] and [icons.css] then hold the new font and stylesheet
    whatever they held before, the directory lists both, and every other
    path is as before. *)
Theorem run_overwrite_success (env : Env) (segs : list jsstr) (fs : FS)
    (size sizeOut : Z) (listing entriesOut : list jsstr) (answer : jsstr)
    (chunks : list Chunk) (ttf woff2 : bytes) :
  let svgFiles := map (fun file => absPath (segs ++ [lit "svg"; file])) (svgEntries listing) in
  let outputDir := absPath (segs ++ [lit "icons"]) in
  let woff2Path := absPath (segs ++ [lit "icons"; lit "icons.woff2"]) in
  let cssPath := absPath (segs ++ [lit "icons"; lit "icons.css"]) in
  env_cwd env = absPath segs → Forall plainName segs →
  fs !! absPath (segs ++ [lit "svg"]) = Some (Dir size listing) →
  Forall (Forall (fun c => isSlash c = false)) listing →
  Exists (fun file => endsWith file (lit ".svg") = true) listing →
  fs !! outputDir = Some (Dir sizeOut entriesOut) →
  notDir fs woff2Path → notDir fs cssPath →
  env_answer env = Some answer → confirmed answer = true →
  env_fontStream env (lit "icons") (glyphs fs svgFiles) = StreamFinish chunks →
  env_svg2ttf env (concat (map chunkBuffer chunks)) = inr ttf →
  env_ttf2woff2 env ttf = inr woff2 →
  ∃ fs',
    runProcess env fs =
      mkOutcome 0 fs'
        [msgQuestion;
         lit "Font generation complete! CSS and WOFF2 files have been generated."] [] ∧
    fs' !! woff2Path = Some (File woff2) ∧
    fs' !! cssPath = Some (File (utf8Encode (cssOutput (lit "icons") svgFiles))) ∧
    dirLists fs' outputDir
      (fun name => name ∈ entriesOut ∨ name = lit "icons.woff2" ∨ name = lit "icons.css") ∧
    (∀ q, q ≠ woff2Path → q ≠ cssPath → q ≠ outputDir → fs' !! q = fs !! q).
Proof.
  intros svgFiles outputDir woff2Path cssPath Hcwd Hsegs Hs Hl Hex Ho Hnw Hnc Ha Hconf
    Hstream Httf Hwoff.
  assert (Forall plainName (segs ++ [lit "svg"])) as Hsvg
    by (apply Forall_app; split; [done|constructor; [apply plainName_svg|done]]).
  assert (Forall plainName (segs ++ [lit "icons"])) as Hicons
    by (apply Forall_app; split; [done|constructor; [apply plainName_icons|done]]).
  assert (collectSVG (absPath (segs ++ [lit "svg"])) listing = svgFiles) as Hfiles.
  { rewrite collectSVG_abs by done. unfold svgFiles. apply map_ext. intros file.
    by rewrite <- app_assoc. }
  assert (plainName (lit "icons.woff2")) as Hpw by (repeat constructor; discriminate).
  assert (plainName (lit "icons.css")) as Hpc by (repeat constructor; discriminate).
  assert (path_join [absPath (segs ++ [lit "icons"]); lit "icons" ++ lit ".woff2"]
          = woff2Path) as Ew
    by (rewrite path_join_abs, <- app_assoc by done; reflexivity).
  assert (path_join [absPath (segs ++ [lit "icons"]); lit "icons" ++ lit ".css"]
          = cssPath) as Ec
    by (rewrite path_join_abs, <- app_assoc by done; reflexivity).
  unfold runProcess.
  rewrite (main_accepted env segs Hcwd Hsegs fs [] [] false size listing
             (Dir sizeOut entriesOut) answer) by done.
  rewrite Hfiles.
  destruct (generateFont_writes env svgFiles (lit "icons") (segs ++ [lit "icons"]) fs
              ([] ++ [msgQuestion]) [] false sizeOut entriesOut chunks ttf woff2)
    as (fs' & Hrun & H1 & H2 & H3 & H4);
    [done|repeat constructor|done|by rewrite Ew|by rewrite Ec|done..|].
  rewrite Ew in H1. rewrite Ec in H2.
  rewrite Hrun. exists fs'. split; [reflexivity|].
  split; [exact H1|]. split; [exact H2|]. split.
  - eexists _, _. split; [exact H3|]. intros name.
    rewrite !elem_of_withEntry. tauto.
  - intros q Hq1 Hq2 Hq3. apply H4; rewrite ?Ew, ?Ec; done.
Qed.

Lemma run_overwrite_success_witness :
  ∃ fs',
    runProcess Examples.envAccept Examples.fsPrior =
      mkOutcome 0 fs'
        [msgQuestion;
         lit "Font generation complete! CSS and WOFF2 files have been generated."] [] ∧
    fs' !! lit "/w/icons/icons.css" =
      Some (File (utf8Encode (cssOutput (lit "icons") [lit "/w/svg/a.svg"]))) ∧
    dirLists fs' (lit "/w/icons")
      (fun name => name ∈ [lit "icons.css"] ∨ name = lit "icons.woff2"
                   ∨ name = lit "icons.css").
Proof.
  destruct (run_overwrite_success Examples.envAccept [lit "w"] Examples.fsPrior 4096 4096
              [lit "a.svg"] [lit "icons.css"] (lit " S ")
              [StringChunk (lit "<svg><font/>"); BufferChunk (utf8Encode (lit "</svg>"))]
              (0 :: utf8Encode (lit "<svg><font/></svg>"))
              (1 :: 0 :: utf8Encode (lit "<svg><font/></svg>")))
    as (fs' & H1 & _ & H3 & H4 & _).
  - reflexivity.
  - repeat constructor; discriminate.
  - vm_compute. reflexivity.
  - repeat constructor.
  - constructor. vm_compute. reflexivity.
  - vm_compute. reflexivity.
  - intros size entries. vm_compute. discriminate.
  - intros size entries. vm_compute. discriminate.
  - reflexivity.
  - vm_compute. reflexivity.
  - reflexivity.
  - reflexivity.
  - reflexivity.
  - exists fs'. split; [exact H1|]. split; [exact H3|exact H4].
Defined.

(** ** More on the stylesheet *)

Section AsciiStylesheet.

Lemma ascii_forallb (s : jsstr) : forallb asciiChar s = true ↔ isAscii s.
Proof.
  unfold isAscii. rewrite forallb_forall, Forall_forall. unfold asciiChar.
  split; intros H c Hc.
  - apply list_elem_of_In, H in Hc. apply andb_true_iff in Hc as [H1 H2].
    apply Z.leb_le in H1. apply Z.ltb_lt in H2. lia.
  - apply list_elem_of_In, H in Hc. apply andb_true_iff.
    split; [apply Z.leb_le|apply Z.ltb_lt]; lia.
Qed.

Lemma utf8Encode_ascii (s : jsstr) : isAscii s → utf8Encode s = s.
Proof.
  induction 1 as [|c s Hc _ IH]; [done|].
  cbn [utf8Encode]. unfold isHighSurrogate, isLowSurrogate, utf8CodePoint.
  rewrite (proj2 (Z.leb_gt 0xD800 c)) by lia. cbn [andb].
  rewrite (proj2 (Z.leb_gt 0xDC00 c)) by lia. cbn [andb].
  rewrite (proj2 (Z.ltb_lt c 0x80)) by lia. by rewrite IH.
Qed.

Lemma asciiChar_of (P : Z → Prop) (s : jsstr) :
  (∀ c, P c → asciiChar c = true) → Forall P s → forallb asciiChar s = true.
Proof.
  intros HP H. induction H as [|c s Hc _ IH]; [done|].
  cbn [forallb]. by rewrite (HP c Hc), IH.
Qed.

Lemma isNameChar_ascii (c : Z) : isNameChar c = true → asciiChar c = true.
Proof.
  unfold isNameChar, isAlnum, asciiChar. intros H.
  apply andb_true_iff. split; [apply Z.leb_le|apply Z.ltb_lt].
  all: repeat match goal with
         | H : _ || _ = true |- _ => apply orb_true_iff in H as [H|H]
         | H : _ && _ = true |- _ => apply andb_true_iff in H as [? ?]
         | H : (_ <=? _) = true |- _ => apply Z.leb_le in H
         | H : (_ =? _) = true |- _ => apply Z.eqb_eq in H
         end; lia.
Qed.

Lemma isHexDigit_ascii (c : Z) : isHexDigit c = true → asciiChar c = true.
Proof.
  unfold isHexDigit, asciiChar. intros H.
  apply andb_true_iff. split; [apply Z.leb_le|apply Z.ltb_lt].
  all: repeat match goal with
         | H : _ || _ = true |- _ => apply orb_true_iff in H as [H|H]
         | H : _ && _ = true |- _ => apply andb_true_iff in H as [? ?]
         | H : (_ <=? _) = true |- _ => apply Z.leb_le in H
         end; lia.
Qed.

Lemma cssRule_ascii (index : nat) (file : jsstr) :
  forallb asciiChar (cssRule index file) = true.
Proof.
  unfold cssRule, glyphName. rewrite glyphCodePoint_eq. cbn [codeToString16].
  rewrite !forallb_app.
  rewrite (asciiChar_of (fun c => isNameChar c = true) (sanitizeGlyphName _));
    [|apply isNameChar_ascii|apply sanitize_chars].
  rewrite (asciiChar_of (fun c => isHexDigit c = true) (toString16 _));
    [done|apply isHexDigit_ascii|apply toString16_hex].
Qed.

Lemma join_ascii (rules : list jsstr) :
  Forall (fun rule => forallb asciiChar rule = true) rules →
  forallb asciiChar (join nl rules) = true.
Proof.
  induction 1 as [|rule rules Hr _ IH]; [done|].
  destruct rules as [|rule' rules]; [done|].
  change (join nl (rule :: rule' :: rules)) with (rule ++ nl ++ join nl (rule' :: rules)).
  by rewrite !forallb_app, Hr, IH.
Qed.

Lemma cssOutput_ascii (fontName : jsstr) (svgFiles : list jsstr) :
  isAscii fontName → forallb asciiChar (cssOutput fontName svgFiles) = true.
Proof.
  intros Hf%ascii_forallb.
  unfold cssOutput, fontFace, fontFaceBlock, baseRule.
  rewrite !forallb_app, Hf, join_ascii; [reflexivity|].
  apply Forall_lookup_2. intros i rule. unfold cssContent.
  rewrite list_lookup_imap. destruct (svgFiles !! i); [|done].
  intros [= <-]. apply cssRule_ascii.
Qed.

End AsciiStylesheet.

(** X15. With an ASCII font name (the script's is ['icons']) the
    stylesheet is plain ASCII whatever the icon files are called: the
    bytes written to the stylesheet file are exactly the characters of the
    text, one byte each. *)
Theorem stylesheet_bytes_ascii (fontName : jsstr) (svgFiles : list jsstr) :
  isAscii fontName →
  isAscii (cssOutput fontName svgFiles) ∧
  utf8Encode (cssOutput fontName svgFiles) = cssOutput fontName svgFiles ∧
  length (utf8Encode (cssOutput fontName svgFiles)) = length (cssOutput fontName svgFiles).
Proof.
  intros Hf. pose proof (cssOutput_ascii fontName svgFiles Hf) as H%ascii_forallb.
  split; [done|]. by rewrite utf8Encode_ascii.
Qed.

Lemma stylesheet_bytes_ascii_witness :
  utf8Encode (cssOutput (lit "icons") [[47; 0x6C34; 0xD83D; 0xDE00] ++ lit ".svg"]) =
  cssOutput (lit "icons") [[47; 0x6C34; 0xD83D; 0xDE00] ++ lit ".svg"].
Proof.
  apply (stylesheet_bytes_ascii (lit "icons") [[47; 0x6C34; 0xD83D; 0xDE00] ++ lit ".svg"]).
  apply ascii_forallb. vm_compute. reflexivity.
Defined.

Section Collisions.

Lemma cssRule_split (index : nat) (file : jsstr) :
  cssRule index file =
  selector (glyphName file) ++ declaration ((0xe000 + Z.of_nat index) mod 65536).
Proof.
  unfold cssRule, selector, declaration. rewrite glyphCodePoint_eq.
  cbn [codeToString16]. by rewrite <- !app_assoc.
Qed.

Lemma toString16_inj (a b : Z) : 0 ≤ a → 0 ≤ b → toString16 a = toString16 b → a = b.
Proof.
  intros Ha Hb H. by rewrite <- (toString16_value a), <- (toString16_value b), H.
Qed.

Lemma declaration_inj (a b : Z) : 0 ≤ a → 0 ≤ b → declaration a = declaration b → a = b.
Proof.
  unfold declaration. intros Ha Hb H.
  apply app_inv_head, app_inv_head, app_inv_head in H.
  rewrite !app_assoc in H. apply app_inv_tail, app_inv_tail in H.
  by apply toString16_inj.
Qed.

End Collisions.

(** X16. Names are not made unique.  Two collected files whose base names
    sanitize to the same glyph name, at positions that differ by less than
    0x10000, both get a rule: the two rules have the same selector and
    different code points in their declarations. *)
Theorem colliding_names_keep_both_rules (svgFiles : list jsstr) (i j : nat) (file1 file2 : jsstr) :
  svgFiles !! i = Some file1 → svgFiles !! j = Some file2 →
  glyphName file1 = glyphName file2 →
  (i < j)%nat → Z.of_nat j < Z.of_nat i + 0x10000 →
  ∃ code1 code2,
    cssContent svgFiles !! i = Some (selector (glyphName file1) ++ declaration code1) ∧
    cssContent svgFiles !! j = Some (selector (glyphName file1) ++ declaration code2) ∧
    glyphCodePoint i = Some code1 ∧ glyphCodePoint j = Some code2 ∧
    code1 ≠ code2 ∧ declaration code1 ≠ declaration code2.
Proof.
  intros H1 H2 Hname Hij Hji.
  exists ((0xe000 + Z.of_nat i) mod 65536), ((0xe000 + Z.of_nat j) mod 65536).
  assert ((0xe000 + Z.of_nat i) mod 65536 ≠ (0xe000 + Z.of_nat j) mod 65536) as Hne.
  { rewrite Nat2Z.inj_lt in Hij. Z.div_mod_to_equations. lia. }
  unfold cssContent. rewrite !list_lookup_imap, H1, H2. cbn [fmap option_fmap option_map].
  rewrite !cssRule_split, <- Hname.
  repeat split; try done.
  intros E. apply declaration_inj in E; [done|apply Z.mod_pos_bound; lia..].
Qed.

Lemma colliding_names_keep_both_rules_witness :
  ∃ code1 code2,
    cssContent [lit "/w/svg/a b.svg"; lit "/w/svg/a_b.svg"] !! 0%nat =
      Some (selector (lit "a-b") ++ declaration code1) ∧
    cssContent [lit "/w/svg/a b.svg"; lit "/w/svg/a_b.svg"] !! 1%nat =
      Some (selector (lit "a-b") ++ declaration code2) ∧
    code1 ≠ code2.
Proof.
  destruct (colliding_names_keep_both_rules [lit "/w/svg/a b.svg"; lit "/w/svg/a_b.svg"]
              0 1 (lit "/w/svg/a b.svg") (lit "/w/svg/a_b.svg")
              eq_refl eq_refl ltac:(vm_compute; reflexivity)
              ltac:(lia) ltac:(vm_compute; reflexivity))
    as (c1 & c2 & H1 & H2 & _ & _ & H3 & _).
  exists c1, c2. split; [exact H1|]. split; [exact H2|exact H3].
Defined.

(** X17. When [icons] exists but is a regular file and the overwrite is
    confirmed, the first write throws inside the [try]: the run prints the
    question, reports the error, writes nothing and still ends with exit
    status 0. *)
Theorem run_output_is_a_file (env : Env) (segs : list jsstr) (fs : FS)
    (size : Z) (listing : list jsstr) (content : bytes) (answer : jsstr)
    (chunks : list Chunk) (ttf woff2 : bytes) :
  let svgFiles := collectSVG (absPath (segs ++ [lit "svg"])) listing in
  env_cwd env = absPath segs → Forall plainName segs →
  fs !! absPath (segs ++ [lit "svg"]) = Some (Dir size listing) →
  Exists (fun file => endsWith file (lit ".svg") = true) listing →
  fs !! absPath (segs ++ [lit "icons"]) = Some (File content) →
  notDir fs (absPath (segs ++ [lit "icons"; lit "icons.woff2"])) →
  env_answer env = Some answer → confirmed answer = true →
  env_fontStream env (lit "icons") (glyphs fs svgFiles) = StreamFinish chunks →
  env_svg2ttf env (concat (map chunkBuffer chunks)) = inr ttf →
  env_ttf2woff2 env ttf = inr woff2 →
  runProcess env fs =
  mkOutcome 0 fs [msgQuestion] [lit "Error during font generation: ENOTDIR"].
Proof.
  intros svgFiles Hcwd Hsegs Hs Hex Ho Hnw Ha Hconf Hstream Httf Hwoff.
  assert (Forall plainName (segs ++ [lit "icons"])) as Hicons
    by (apply Forall_app; split; [done|constructor; [apply plainName_icons|done]]).
  assert (plainName (lit "icons.woff2")) as Hpw by (repeat constructor; discriminate).
  unfold runProcess.
  rewrite (main_accepted env segs Hcwd Hsegs fs [] [] false size listing
             (File content) answer) by done.
  fold svgFiles. unfold generateFont, finishHandler, onFinish. run_unfold.
  rewrite Hstream, Httf, Hwoff. run_unfold.
  change (lit "icons" ++ lit ".woff2") with (lit "icons.woff2").
  rewrite path_join_abs by done.
  unfold fs_writeFileSync. rewrite (proj1 (parentOf_abs _ _ Hpw)), Ho.
  rewrite <- app_assoc. cbn [app].
  destruct (fs !! absPath (segs ++ [lit "icons"; lit "icons.woff2"])) as [[s l|c]|] eqn:E;
    [by destruct (Hnw s l)|reflexivity..].
Qed.

Lemma run_output_is_a_file_witness :
  runProcess Examples.envAccept (<[lit "/w/icons" := File [1]]> Examples.fsIcons) =
  mkOutcome 0 (<[lit "/w/icons" := File [1]]> Examples.fsIcons) [msgQuestion]
    [lit "Error during font generation: ENOTDIR"].
Proof.
  apply (run_output_is_a_file Examples.envAccept [lit "w"] _ 4096 [lit "a.svg"] [1] (lit " S ")
           [StringChunk (lit "<svg><font/>"); BufferChunk (utf8Encode (lit "</svg>"))]
           (0 :: utf8Encode (lit "<svg><font/></svg>"))
           (1 :: 0 :: utf8Encode (lit "<svg><font/></svg>"))).
  - reflexivity.
  - repeat constructor; discriminate.
  - vm_compute. reflexivity.
  - constructor. vm_compute. reflexivity.
  - vm_compute. reflexivity.
  - intros size entries. vm_compute. discriminate.
  - reflexivity.
  - vm_compute. reflexivity.
  - reflexivity.
  - reflexivity.
  - reflexivity.
Defined.

(** ** UTF-8 *)

Section Utf8.

Lemma lor_range (n a b : Z) :
  0 < n → 0 ≤ a < 2 ^ n → 0 ≤ b < 2 ^ n → 0 ≤ Z.lor a b < 2 ^ n.
Proof.
  intros Hn Ha Hb. split; [apply Z.lor_nonneg; lia|].
  destruct (Z.eq_dec (Z.lor a b) 0) as [->|Hne]; [apply Z.pow_pos_nonneg; lia|].
  assert (0 < Z.lor a b) as Hpos by (pose proof (proj2 (Z.lor_nonneg a b)); lia).
  apply Z.log2_lt_pow2; [done|].
  rewrite Z.log2_lor by lia.
  apply Z.max_lub_lt.
  - destruct (Z.eq_dec a 0) as [->|]; [cbn; lia|]. apply Z.log2_lt_pow2; lia.
  - destruct (Z.eq_dec b 0) as [->|]; [cbn; lia|]. apply Z.log2_lt_pow2; lia.
Qed.

Lemma continuation_byte (x : Z) : 0 ≤ Z.lor 0x80 (Z.land x 0x3F) < 256.
Proof.
  change 0x3F with (Z.ones 6). rewrite Z.land_ones by lia.
  pose proof (Z.mod_pos_bound x (2 ^ 6) ltac:(lia)).
  apply (lor_range 8); lia.
Qed.

Lemma lead_byte (tag x k : Z) :
  0 ≤ tag < 256 → 0 ≤ k → 0 ≤ x < 256 * 2 ^ k → 0 ≤ Z.lor tag (Z.shiftr x k) < 256.
Proof.
  intros Ht Hk Hx. apply (lor_range 8); [lia|lia|].
  rewrite Z.shiftr_div_pow2 by lia.
  pose proof (Z.pow_pos_nonneg 2 k ltac:(lia) Hk).
  split; [apply Z.div_pos; lia|apply Z.div_lt_upper_bound; lia].
Qed.

Lemma utf8CodePoint_bytes (cp : Z) :
  0 ≤ cp < 0x110000 → Forall (fun b => 0 ≤ b < 256) (utf8CodePoint cp).
Proof.
  intros H. unfold utf8CodePoint.
  destruct (Z.ltb_spec cp 0x80); [repeat constructor; lia|].
  destruct (Z.ltb_spec cp 0x800);
    [repeat constructor; (apply continuation_byte || apply lead_byte; lia)|].
  destruct (Z.ltb_spec cp 0x10000);
    repeat constructor; (apply continuation_byte || apply lead_byte; lia).
Qed.

Lemma utf8Encode_bytes_upto (n : nat) (s : jsstr) :
  (length s ≤ n)%nat → isCodeUnits s → Forall (fun b => 0 ≤ b < 256) (utf8Encode s).
Proof.
  revert s. induction n as [|n IH]; intros s Hl Hs.
  { destruct s; [constructor|cbn in Hl; lia]. }
  destruct Hs as [|c s Hc Hs]; [constructor|]. cbn [length] in Hl.
  assert (Forall (fun b => 0 ≤ b < 256) (utf8CodePoint 0xFFFD)) as Hrep
    by (apply utf8CodePoint_bytes; lia).
  assert (Forall (fun b => 0 ≤ b < 256) (utf8Encode s)) as Hrest
    by (apply IH; [lia|done]).
  cbn [utf8Encode].
  destruct (isHighSurrogate c) eqn:Eh.
  - destruct Hs as [|d s Hd Hs]; [done|]. cbn [length] in Hl.
    destruct (isLowSurrogate d) eqn:El; [|by apply Forall_app].
    apply Forall_app. split; [|apply IH; [lia|done]].
    apply utf8CodePoint_bytes.
    unfold isHighSurrogate in Eh. unfold isLowSurrogate in El.
    apply andb_true_iff in Eh as [?%Z.leb_le ?%Z.leb_le].
    apply andb_true_iff in El as [?%Z.leb_le ?%Z.leb_le]. lia.
  - destruct (isLowSurrogate c); apply Forall_app; split; try done.
    apply utf8CodePoint_bytes. lia.
Qed.

Lemma land_shiftl_small (t k x : Z) :
  0 ≤ k → 0 ≤ x < 2 ^ k → Z.land (Z.shiftl t k) x = 0.
Proof.
  intros Hk Hx. apply Z.bits_inj'. intros n Hn.
  rewrite Z.land_spec, Z.bits_0.
  destruct (Z.lt_ge_cases n k).
  - by rewrite Z.shiftl_spec_low.
  - rewrite <- (Z.mod_small x (2 ^ k)) by lia.
    rewrite Z.mod_pow2_bits_high by lia. apply andb_false_r.
Qed.

Lemma lor_tag (t k x : Z) :
  0 ≤ k → 0 ≤ x < 2 ^ k → Z.lor (Z.shiftl t k) x = t * 2 ^ k + x.
Proof.
  intros Hk Hx. pose proof (land_shiftl_small t k x Hk Hx) as H.
  rewrite <- Z.lxor_lor, <- Z.add_nocarry_lxor by done.
  by rewrite Z.shiftl_mul_pow2.
Qed.

Lemma continuation_value (x : Z) : Z.lor 0x80 (Z.land x 0x3F) = 0x80 + x mod 0x40.
Proof.
  change 0x3F with (Z.ones 6). rewrite Z.land_ones by lia.
  change 0x80 with (Z.shiftl 2 6). rewrite lor_tag; [done|lia|].
  apply Z.mod_pos_bound. lia.
Qed.

Lemma lead_value (t k x n : Z) :
  0 ≤ k → 0 ≤ n → 0 ≤ x < 2 ^ (k + n) →
  Z.lor (Z.shiftl t k) (Z.shiftr x n) = t * 2 ^ k + x / 2 ^ n.
Proof.
  intros Hk Hn Hx. rewrite Z.shiftr_div_pow2 by done.
  apply lor_tag; [done|].
  rewrite Z.pow_add_r in Hx by done.
  pose proof (Z.pow_pos_nonneg 2 n ltac:(lia) Hn).
  split; [apply Z.div_pos; lia|apply Z.div_lt_upper_bound; lia].
Qed.

Lemma utf8CodePoint_value (cp : Z) :
  utf8CodePoint cp =
  if cp <? 0x80 then [cp]
  else if cp <? 0x800 then [0xC0 + cp / 0x40; 0x80 + cp mod 0x40]
  else if cp <? 0x10000 then
    [0xE0 + cp / 0x1000; 0x80 + cp / 0x40 mod 0x40; 0x80 + cp mod 0x40]
  else if cp <? 0x200000 then
    [0xF0 + cp / 0x40000; 0x80 + cp / 0x1000 mod 0x40; 0x80 + cp / 0x40 mod 0x40;
     0x80 + cp mod 0x40]
  else utf8CodePoint cp.
Proof.
  unfold utf8CodePoint.
  destruct (Z.ltb_spec cp 0x80); [done|].
  rewrite !continuation_value, !Z.shiftr_div_pow2 by lia.
  destruct (Z.ltb_spec cp 0x800).
  { change 0xC0 with (Z.shiftl 6 5). rewrite <- (Z.shiftr_div_pow2 cp 6) by lia.
    rewrite (lead_value 6 5 cp 6) by lia. reflexivity. }
  destruct (Z.ltb_spec cp 0x10000).
  { change 0xE0 with (Z.shiftl 14 4). rewrite <- (Z.shiftr_div_pow2 cp 12) by lia.
    rewrite (lead_value 14 4 cp 12) by lia. reflexivity. }
  destruct (Z.ltb_spec cp 0x200000); [|done].
  change 0xF0 with (Z.shiftl 30 3). rewrite <- (Z.shiftr_div_pow2 cp 18) by lia.
  rewrite (lead_value 30 3 cp 18) by lia. reflexivity.
Qed.

Ltac decide_tests :=
  repeat match goal with
  | |- context [Z.leb ?a ?b] =>
      destruct (Z.leb_spec a b); try (exfalso; Z.div_mod_to_equations; lia)
  | |- context [Z.ltb ?a ?b] =>
      destruct (Z.ltb_spec a b); try (exfalso; Z.div_mod_to_equations; lia)
  end.

Lemma utf8Decode_codePoint (cp : Z) (rest : bytes) :
  isScalar cp = true →
  utf8Decode (utf8CodePoint cp ++ rest) = cons cp <$> utf8Decode rest.
Proof.
  unfold isScalar. intros H.
  assert (0 ≤ cp < 0x110000 ∧ ¬ (0xD800 ≤ cp < 0xE000)) as [Hr Hs] by lia.
  clear H. rewrite utf8CodePoint_value.
  destruct (Z.ltb_spec cp 0x80).
  { cbn [app utf8Decode]. by decide_tests. }
  destruct (Z.ltb_spec cp 0x800).
  { cbn [app utf8Decode]. unfold isContinuation. cbv zeta.
    replace ((0xC0 + cp / 0x40 - 0xC0) * 0x40 + (0x80 + cp mod 0x40 - 0x80)) with cp
      by (Z.div_mod_to_equations; lia).
    by decide_tests. }
  destruct (Z.ltb_spec cp 0x10000).
  { cbn [app utf8Decode]. unfold isContinuation, isScalar. cbv zeta.
    replace ((0xE0 + cp / 0x1000 - 0xE0) * 0x1000 + (0x80 + cp / 0x40 mod 0x40 - 0x80) * 0x40
             + (0x80 + cp mod 0x40 - 0x80)) with cp
      by (Z.div_mod_to_equations; lia).
    by decide_tests. }
  destruct (Z.ltb_spec cp 0x200000); [|lia].
  cbn [app utf8Decode]. unfold isContinuation, isScalar. cbv zeta.
  replace ((0xF0 + cp / 0x40000 - 0xF0) * 0x40000 + (0x80 + cp / 0x1000 mod 0x40 - 0x80) * 0x1000
           + (0x80 + cp / 0x40 mod 0x40 - 0x80) * 0x40 + (0x80 + cp mod 0x40 - 0x80)) with cp
    by (Z.div_mod_to_equations; lia).
  by decide_tests.
Qed.

Lemma utf8Decode_encode_upto (n : nat) (s : jsstr) (rest : bytes) :
  (length s ≤ n)%nat → isCodeUnits s →
  utf8Decode (utf8Encode s ++ rest) = app (codePoints s) <$> utf8Decode rest.
Proof.
  revert s. induction n as [|n IH]; intros s Hl Hs.
  { destruct s; [|cbn in Hl; lia]. cbn [utf8Encode codePoints app].
    by destruct (utf8Decode rest). }
  destruct Hs as [|c s Hc Hs].
  { cbn [utf8Encode codePoints app]. by destruct (utf8Decode rest). }
  cbn [length] in Hl.
  assert (utf8Decode (utf8CodePoint 0xFFFD ++ utf8Encode s ++ rest) =
          app (0xFFFD :: codePoints s) <$> utf8Decode rest) as Hrep.
  { rewrite utf8Decode_codePoint by done. rewrite IH by (lia || done).
    by destruct (utf8Decode rest). }
  cbn [utf8Encode codePoints].
  destruct (isHighSurrogate c) eqn:Eh.
  - destruct Hs as [|d s Hd Hs].
    { rewrite utf8Decode_codePoint by done. by destruct (utf8Decode rest). }
    cbn [length] in Hl.
    destruct (isLowSurrogate d) eqn:El; [|by rewrite <- app_assoc].
    rewrite <- app_assoc, utf8Decode_codePoint.
    + rewrite IH by (lia || done). by destruct (utf8Decode rest).
    + unfold isHighSurrogate in Eh. unfold isLowSurrogate in El. unfold isScalar. lia.
  - destruct (isLowSurrogate c) eqn:El; [by rewrite <- app_assoc|].
    rewrite <- app_assoc, utf8Decode_codePoint.
    + rewrite IH by (lia || done). by destruct (utf8Decode rest).
    + unfold isHighSurrogate in Eh. unfold isLowSurrogate in El. unfold isScalar. lia.
Qed.

End Utf8.

Lemma utf8Encode_bytes (s : jsstr) :
  isCodeUnits s → Forall (fun b => 0 ≤ b < 256) (utf8Encode s).
Proof. apply (utf8Encode_bytes_upto (length s)). lia. Qed.

(** Decoding the UTF-8 encoding of a string gives the text of the string. *)
Lemma utf8Decode_encode (s : jsstr) :
  isCodeUnits s → utf8Decode (utf8Encode s) = Some (codePoints s).
Proof.
  intros Hs. rewrite <- (app_nil_r (utf8Encode s)).
  rewrite (utf8Decode_encode_upto (length s)) by done.
  cbn. by rewrite app_nil_r.
Qed.

(** X18. The buffer handed to the converter is a sequence of bytes made of
    one part per chunk, in the order the chunks arrived: the ['data']
    handler keeps a buffer chunk as it is, and the part of a string chunk
    is UTF-8 that decodes to the text of the string, surrogate pairs as
    one code point and lone surrogates as U+FFFD. *)
Theorem svgFontBuffer_bytes (chunks : list Chunk) :
  Forall validChunk chunks →
  let svgFontBuffer := concat (map chunkBuffer chunks) in
  Forall (fun b => 0 ≤ b < 256) svgFontBuffer ∧
  ∃ parts : list bytes,
    svgFontBuffer = concat parts ∧
    Forall2 (fun chunk part =>
               match chunk with
               | BufferChunk b => part = b
               | StringChunk s => utf8Decode part = Some (codePoints s)
               end) chunks parts.
Proof.
  intros H svgFontBuffer. split.
  - unfold svgFontBuffer. induction H as [|chunk chunks Hc _ IH]; [constructor|].
    cbn [map concat]. apply Forall_app. split; [|done].
    destruct chunk as [b|s]; [done|]. by apply utf8Encode_bytes.
  - exists (map chunkBuffer chunks). split; [done|].
    clear svgFontBuffer. induction H as [|chunk chunks Hc _ IH]; [constructor|].
    cbn [map]. constructor; [|done].
    destruct chunk as [b|s]; [done|]. by apply utf8Decode_encode.
Qed.

Lemma svgFontBuffer_bytes_witness :
  Forall (fun b => 0 ≤ b < 256)
    (concat (map chunkBuffer
       [StringChunk [0x61; 0xE9; 0x20AC; 0xD83D; 0xDE00; 0xD83D]; StringChunk [0xDE00];
        BufferChunk [60; 255]])).
Proof.
  apply (svgFontBuffer_bytes
           [StringChunk [0x61; 0xE9; 0x20AC; 0xD83D; 0xDE00; 0xD83D]; StringChunk [0xDE00];
            BufferChunk [60; 255]]).
  repeat constructor; lia.
Defined.

(** A surrogate pair split over two string chunks is encoded as two
    replacement characters. *)
Example split_surrogate_pair :
  concat (map chunkBuffer [StringChunk [0xD83D]; StringChunk [0xDE00]]) =
    [0xEF; 0xBF; 0xBD; 0xEF; 0xBF; 0xBD] ∧
  chunkBuffer (StringChunk [0xD83D; 0xDE00]) = [0xF0; 0x9F; 0x98; 0x80].
Proof. split; vm_compute; reflexivity. Qed.

(** ** The escape in a rule *)

Section Escape.

Lemma toString16_four_digits (code : Z) :
  0x1000 ≤ code < 0x10000 →
  toString16 code =
  [digitChar (code / 4096 mod 16); digitChar (code / 256 mod 16);
   digitChar (code / 16 mod 16); digitChar (code mod 16)].
Proof.
  intros H. unfold toString16, toStringRadix.
  assert (12 ≤ Z.log2 code) as Hlog by (apply (Z.log2_le_pow2 code 12); lia).
  destruct (Z.to_nat (Z.log2 code)) as [|[|[|n]]] eqn:E; [lia..|].
  cbn [digitsLoop].
  rewrite (proj2 (Z.eqb_neq (code / 16) 0)) by (Z.div_mod_to_equations; lia).
  rewrite (proj2 (Z.eqb_neq (code / 16 / 16) 0)) by (Z.div_mod_to_equations; lia).
  rewrite (proj2 (Z.eqb_neq (code / 16 / 16 / 16) 0)) by (Z.div_mod_to_equations; lia).
  rewrite (proj2 (Z.eqb_eq (code / 16 / 16 / 16 / 16) 0)) by (Z.div_mod_to_equations; lia).
  rewrite !Z.div_div by lia. reflexivity.
Qed.

End Escape.

(** X19. For each of the first 0x2000 icons the rule's [content] is a
    backslash followed by exactly four hexadecimal digits, the first of
    them [e] or [f]. *)
Theorem rule_escape_four_digits (index : nat) (file : jsstr) :
  (index < 0x2000)%nat →
  ∃ d1 d2 d3 d4 : Z,
    cssRule index file =
      selector (glyphName file) ++ lit " { content: " ++ dquote ++ lit "\"
        ++ [d1; d2; d3; d4] ++ dquote ++ lit "; }" ∧
    (d1 = 101 ∨ d1 = 102) ∧
    Forall (fun c => isHexDigit c = true) [d1; d2; d3; d4] ∧
    hexValue [d1; d2; d3; d4] = 0xe000 + Z.of_nat index.
Proof.
  intros H.
  assert ((0xe000 + Z.of_nat index) mod 65536 = 0xe000 + Z.of_nat index) as Hcode
    by (apply Z.mod_small; lia).
  pose proof (toString16_four_digits (0xe000 + Z.of_nat index) ltac:(lia)) as Hd.
  eexists _, _, _, _. split; [|split; [|split]].
  - rewrite cssRule_split, Hcode. unfold declaration. rewrite Hd. reflexivity.
  - cbv beta. unfold digitChar.
    assert ((0xe000 + Z.of_nat index) / 4096 mod 16 = 14 ∨
            (0xe000 + Z.of_nat index) / 4096 mod 16 = 15) as [-> | ->]
      by (Z.div_mod_to_equations; lia); [by left|by right].
  - rewrite <- Hd. apply toString16_hex.
  - rewrite <- Hd. apply toString16_value. lia.
Qed.

Lemma rule_escape_four_digits_witness :
  ∃ d1 d2 d3 d4 : Z,
    cssRule 26 (lit "/w/svg/home.svg") =
      selector (lit "home") ++ lit " { content: " ++ dquote ++ lit "\"
        ++ [d1; d2; d3; d4] ++ dquote ++ lit "; }" ∧
    hexValue [d1; d2; d3; d4] = 0xe01a.
Proof.
  destruct (rule_escape_four_digits 26 (lit "/w/svg/home.svg") ltac:(vm_compute; lia))
    as (d1 & d2 & d3 & d4 & H1 & _ & _ & H2).
  exists d1, d2, d3, d4. split; [exact H1|exact H2].
Defined.

(** ** A failed second write *)

(** X20. The two output files are not written as one step.  When the
    font file can be written but the stylesheet path is a directory,
    [generateFont] leaves the new font file in place, reports the error,
    prints no completion message and ends normally: a partial result
    stays on disk. *)
Theorem generateFont_partial_output (env : Env) (svgFiles : list jsstr) (fontName : jsstr)
    (segs : list jsstr) (fs : FS) (out err : list jsstr) (closed : bool)
    (size sizeCss : Z) (entries entriesCss : list jsstr) (chunks : list Chunk)
    (ttf woff2 : bytes) :
  let outputDir := absPath segs in
  let woff2Path := path_join [outputDir; fontName ++ lit ".woff2"] in
  let cssPath := path_join [outputDir; fontName ++ lit ".css"] in
  Forall plainName segs →
  Forall (fun c => isSlash c = false) fontName →
  fs !! outputDir = Some (Dir size entries) →
  notDir fs woff2Path →
  fs !! cssPath = Some (Dir sizeCss entriesCss) →
  env_fontStream env fontName (glyphs fs svgFiles) = StreamFinish chunks →
  env_svg2ttf env (concat (map chunkBuffer chunks)) = inr ttf →
  env_ttf2woff2 env ttf = inr woff2 →
  ∃ fs',
    generateFont env svgFiles fontName outputDir (mkWorld fs out err closed) =
      Done tt (mkWorld fs' out (err ++ [lit "Error during font generation: EISDIR"]) true) ∧
    fs' !! woff2Path = Some (File woff2) ∧
    fs' !! cssPath = Some (Dir sizeCss entriesCss).
Proof.
  intros outputDir woff2Path cssPath Hsegs Hfn Hdir Hnw Hcss Hstream Httf Hwoff.
  assert (plainName (fontName ++ lit ".woff2")) as Hpw
    by (apply plainName_ext; [done|by repeat constructor|simpl; lia]).
  assert (plainName (fontName ++ lit ".css")) as Hpc
    by (apply plainName_ext; [done|by repeat constructor|simpl; lia]).
  destruct (parentOf_abs segs _ Hpw) as [Hparw Hleafw].
  subst woff2Path cssPath outputDir.
  unfold generateFont, finishHandler, onFinish. run_unfold.
  rewrite Hstream, Httf, Hwoff.
  rewrite !path_join_abs in * by done.
  set (outputDir := absPath segs) in *.
  set (woff2Path := absPath (segs ++ [fontName ++ lit ".woff2"])) in *.
  set (cssPath := absPath (segs ++ [fontName ++ lit ".css"])) in *.
  assert (woff2Path ≠ cssPath) as Hne.
  { intros E. apply absPath_inj_last, app_inv_head in E. discriminate E. }
  assert (cssPath ≠ outputDir) as Hco by (apply absPath_snoc_ne; by destruct Hpc as [[? _] _]).
  run_unfold.
  rewrite (fs_writeFileSync_ok fs woff2Path woff2 size entries) by (by rewrite ?Hparw).
  run_unfold. rewrite Hparw, Hleafw.
  unfold fs_writeFileSync at 1.
  rewrite lookup_insert_ne, addEntry_lookup_ne, Hcss by done.
  run_unfold. eexists. split; [reflexivity|].
  split; [by rewrite lookup_insert_eq|].
  by rewrite lookup_insert_ne, addEntry_lookup_ne.
Qed.

Lemma generateFont_partial_output_witness :
  ∃ fs',
    generateFont Examples.envAccept [lit "/w/svg/a.svg"] (lit "icons") (lit "/w/icons")
      (Examples.world Examples.fsCssIsDir) =
      Done tt (mkWorld fs' [] [lit "Error during font generation: EISDIR"] true) ∧
    fs' !! lit "/w/icons/icons.woff2" =
      Some (File (1 :: 0 :: utf8Encode (lit "<svg><font/></svg>"))).
Proof.
  destruct (generateFont_partial_output Examples.envAccept [lit "/w/svg/a.svg"] (lit "icons")
              [lit "w"; lit "icons"] Examples.fsCssIsDir [] [] false 4096 4096
              [lit "icons.css"] []
              [StringChunk (lit "<svg><font/>"); BufferChunk (utf8Encode (lit "</svg>"))]
              (0 :: utf8Encode (lit "<svg><font/></svg>"))
              (1 :: 0 :: utf8Encode (lit "<svg><font/></svg>")))
    as (fs' & H1 & H2 & _).
  - repeat constructor; discriminate.
  - repeat constructor.
  - vm_compute. reflexivity.
  - intros size entries. vm_compute. discriminate.
  - vm_compute. reflexivity.
  - reflexivity.
  - reflexivity.
  - reflexivity.
  - exists fs'. split; [exact H1|exact H2].
Defined.
